(** * SoundHub: the audio wrappers ([soundhub/audio.py]) and the text-to-audio
    retriever ([soundhub/retrieve.py]), embedded in Rocq.

    The repository is a layer over two libraries: pydub's [AudioSegment] and
    msclap's [CLAP].  The wrappers are translated statement by statement; the
    two libraries are modelled by the part of their interface the wrappers
    call, at the granularity the wrappers observe:

    - an audio segment is the list of its samples, one per millisecond, the
      unit of [len(segment)] and of slicing in pydub;
    - the file system is a finite map from paths to files;
    - the CLAP model is a record of three fallible functions, and every call
      to it is appended to a log. *)

From Stdlib Require Import ZArith QArith List Sorted Permutation Lia.
From Stdlib Require Import Floats.PrimFloat.
From stdpp Require Import gmap strings list fin_maps.

Local Open Scope Z_scope.

(** ** Exceptions *)

(** The exception classes that can reach the wrappers.  [Exception_] is the
    builtin [Exception] the wrappers raise themselves; its message formats
    the exception it replaces, kept here as the cause. *)
Inductive exn : Type :=
| FileNotFoundError
| CouldntDecodeError
| TooManyMissingFrames
| AttributeError (cls attr : string)
| TypeError
| ModelError
| Exception_ (cause : exn).


(** ** A state and exception monad

    A computation reads and updates a state [S] and either returns a value or
    raises.  The state survives a raise, so what a failed call has written
    remains visible. *)
Definition M (S A : Type) : Type := S -> (exn + A) * S.

Definition ret {S A} (a : A) : M S A := fun s => (inr a, s).
Definition raise {S A} (e : exn) : M S A := fun s => (inl e, s).
Definition bind {S A B} (m : M S A) (k : A -> M S B) : M S B :=
  fun s => match m s with
           | (inr a, s') => k a s'
           | (inl e, s') => (inl e, s')
           end.
Definition try_except {S A} (m : M S A) (handler : exn -> M S A) : M S A :=
  fun s => match m s with
           | (inr a, s') => (inr a, s')
           | (inl e, s') => handler e s'
           end.
Definition lift {S A} (r : exn + A) : M S A := fun s => (r, s).

Notation "'let*' x ':=' m 'in' k" := (bind m (fun x => k))
  (at level 10, x name, m at level 100, k at level 200,
   format "'[v' 'let*'  x  ':='  m  'in' '/' k ']'").

(** [[f(x) for x in xs]]: the calls are made left to right and the first
    exception ends the comprehension. *)
Fixpoint comprehension {S A B} (f : A -> M S B) (xs : list A) : M S (list B) :=
  match xs with
  | [] => ret []
  | x :: xs' => let* y := f x in let* ys := comprehension f xs' in ret (y :: ys)
  end.

(** ** Python sequences *)

(** [l[i:j]] for integers [i], [j]: a negative index counts from the end, and
    both are clamped to the sequence. *)
Definition py_index (n i : Z) : Z :=
  if i <? 0 then Z.max (i + n) 0 else Z.min i n.

Definition py_slice {A} (l : list A) (i j : Z) : list A :=
  let n := Z.of_nat (length l) in
  let i' := py_index n i in
  let j' := py_index n j in
  take (Z.to_nat (j' - i')) (drop (Z.to_nat i') l).

(** [l[:j]] *)
Definition py_slice_to {A} (l : list A) (j : Z) : list A := py_slice l 0 j.

(** ** pydub's AudioSegment *)

Module AudioSegment.

Definition sample : Type := Z.

(** A segment: its samples, one per millisecond. *)
Definition t : Type := list sample.

(** [len(seg)]: the duration in milliseconds. *)
Definition len (a : t) : Z := Z.of_nat (length a).

(** [_parse_position]: a negative position counts from the end. *)
Definition parse_position (a : t) (val : Z) : Z :=
  if val <? 0 then len a - Z.abs val else val.

(** [seg[start:stop]] ([__getitem__] with a slice without step): both bounds
    are first clamped to the duration; a result shorter than requested is
    padded with silence, by at most two milliseconds. *)
Definition getitem (a : t) (start stop : Z) : exn + t :=
  let start := Z.min start (len a) in
  let stop := Z.min stop (len a) in
  let start := parse_position a start in
  let stop := parse_position a stop in
  let data := py_slice a start stop in
  let expected_length := stop - start in
  let missing_frames := expected_length - len data in
  if missing_frames =? 0 then inr data
  else if missing_frames >? 2 then inl TooManyMissingFrames
  else
    let silence := map (fun _ => 0) (take 1 data) in
    inr (data ++ mjoin (replicate (Z.to_nat missing_frames) silence)).

(** [seg.append(other, crossfade=0)] *)
Definition append (a b : t) : t := a ++ b.

(** [seg.overlay(other)] at position 0: the sample-wise sum over the span
    of [seg].  The wrappers never call it; it is what mixing means. *)
Fixpoint overlay (a b : t) : t :=
  match a, b with
  | x :: a', y :: b' => (x + y) :: overlay a' b'
  | _, [] => a
  | [], _ => []
  end.

End AudioSegment.

(** ** Python values that [sum] produces *)

Inductive pyobj : Type :=
| PyInt (n : Z)
| PySeg (a : AudioSegment.t).

(** [x + seg].  For an integer [x], [int.__add__] gives up and
    [AudioSegment.__radd__] answers: it permits [0] (the start value of [sum])
    and rejects any other number.  For a segment [x], [AudioSegment.__add__]
    appends. *)
Definition py_add (x : pyobj) (seg : AudioSegment.t) : exn + pyobj :=
  match x with
  | PyInt n => if n =? 0 then inr (PySeg seg) else inl TypeError
  | PySeg a => inr (PySeg (AudioSegment.append a seg))
  end.

Fixpoint py_sum_from (acc : pyobj) (l : list AudioSegment.t) : exn + pyobj :=
  match l with
  | [] => inr acc
  | x :: l' => match py_add acc x with
               | inr acc' => py_sum_from acc' l'
               | inl e => inl e
               end
  end.

(** The builtin [sum(l)], whose start value is the integer [0]. *)
Definition py_sum (l : list AudioSegment.t) : exn + pyobj :=
  py_sum_from (PyInt 0) l.

(** ** The file system *)

Inductive file : Type :=
| Wav (a : AudioSegment.t)
| Undecodable.

Abbreviation FS := (gmap string file).

(** [AudioSegment.from_file(path)] *)
Definition from_file (path : string) : M FS AudioSegment.t :=
  fun fs => match fs !! path with
            | None => (inl FileNotFoundError, fs)
            | Some Undecodable => (inl CouldntDecodeError, fs)
            | Some (Wav a) => (inr a, fs)
            end.

(** [seg.export(path, format="wav")]: the file at [path] is created or
    replaced.  Writing itself is taken to succeed. *)
Definition export (a : AudioSegment.t) (path : string) : M FS unit :=
  fun fs => (inr tt, <[path := Wav a]> fs).

(** [obj.export(path, format="wav")] on whatever [sum] returned: an integer
    has no such attribute. *)
Definition export_obj (o : pyobj) (path : string) : M FS unit :=
  match o with
  | PySeg a => export a path
  | PyInt _ => raise (AttributeError "int" "export")
  end.

(** [segment.set_volume(volume)]: [AudioSegment] defines no attribute of that
    name, so the lookup raises before anything is called. *)
Definition set_volume (segment : AudioSegment.t) (volume : float)
  : M FS AudioSegment.t :=
  raise (AttributeError "AudioSegment" "set_volume").

(** ** soundhub/audio.py *)

Definition trim (audio_path output_path : string) (trim_length : option Z)
    (start_time : Z) (end_time : option Z) : M FS unit :=
  let* audio := from_file audio_path in
  let end_time :=
    match trim_length with
    | Some trim_length => Some (start_time + trim_length)
    | None => end_time
    end in
  let end_time :=
    match end_time with
    | None => AudioSegment.len audio
    | Some end_time => end_time
    end in
  let end_time := Z.min end_time (AudioSegment.len audio) in
  let* trimmed_audio := lift (AudioSegment.getitem audio start_time end_time) in
  export trimmed_audio output_path.

Definition concat (audio_paths : list string) (output_path : string)
  : M FS unit :=
  let* audio_segments := comprehension from_file audio_paths in
  let* concatenated_audio := lift (py_sum audio_segments) in
  export_obj concatenated_audio output_path.

(** The two [except] clauses shared by [mix] and [mix_two] (and the other
    guarded wrappers), as the exception they end with when the body raised
    [e]: a [FileNotFoundError] is raised again as such, anything else
    as the builtin [Exception]. *)
Definition reraised (e : exn) : exn :=
  match e with
  | FileNotFoundError => FileNotFoundError
  | e => Exception_ e
  end.

Definition reraise {A} (e : exn) : M FS A := raise (reraised e).

(** [volume != 1.0] on floats. *)
Definition volume_changed (volume : float) : bool :=
  negb (PrimFloat.eqb volume 1%float).

Definition mix (audio_paths : list string) (output_path : string)
    (volume : float) : M FS unit :=
  try_except
    (let* audio_segments := comprehension from_file audio_paths in
     let* audio_segments :=
       (if volume_changed volume
        then comprehension (fun segment => set_volume segment volume)
               audio_segments
        else ret audio_segments) in
     let* mixed_audio := lift (py_sum audio_segments) in
     export_obj mixed_audio output_path)
    reraise.

Definition mix_two (audio_path1 audio_path2 output_path : string)
    (volume : float) : M FS unit :=
  try_except
    (let* audio_segment1 := from_file audio_path1 in
     let* audio_segment2 := from_file audio_path2 in
     let* segments :=
       (if volume_changed volume
        then let* audio_segment1 := set_volume audio_segment1 volume in
             let* audio_segment2 := set_volume audio_segment2 volume in
             ret (audio_segment1, audio_segment2)
        else ret (audio_segment1, audio_segment2)) in
     let '(audio_segment1, audio_segment2) := segments in
     let mixed_audio := AudioSegment.append audio_segment1 audio_segment2 in
     export mixed_audio output_path)
    reraise.

(** [fs] holds at [paths] audio files with the contents [segs]. *)
Definition loads (fs : FS) (paths : list string)
    (segs : list AudioSegment.t) : Prop :=
  Forall2 (fun p a => fs !! p = Some (Wav a)) paths segs.

(** The exception [from_file] raises on [path], if it raises. *)
Definition load_error (fs : FS) (path : string) : option exn :=
  match fs !! path with
  | None => Some FileNotFoundError
  | Some Undecodable => Some CouldntDecodeError
  | Some (Wav _) => None
  end.

(** *** The other wrappers of soundhub/audio.py *)

Definition convert_mp3_to_wav (mp3_path wav_output_path : string)
  : M FS unit :=
  try_except
    (let* audio_segment := from_file mp3_path in
     export audio_segment wav_output_path)
    reraise.

Section Fade.
(** [seg.fade_in(duration)] and [seg.fade_out(duration)]: the gain ramps of
    pydub, which the wrapper only passes on. *)
Variables fade_in fade_out : AudioSegment.t -> Z -> exn + AudioSegment.t.

Definition fade (audio_path output_path : string)
    (fade_in_duration fade_out_duration : Z) : M FS unit :=
  let* audio := from_file audio_path in
  let* audio :=
    (if fade_in_duration >? 0
     then lift (fade_in audio fade_in_duration)
     else ret audio) in
  let* audio :=
    (if fade_out_duration >? 0
     then lift (fade_out audio fade_out_duration)
     else ret audio) in
  export audio output_path.
End Fade.

Section Readers.
(** The attributes of a segment that [metadata] and [rms] read. *)
Variables attr_frame_rate attr_channels attr_sample_width
  : AudioSegment.t -> Z.
Variables attr_duration_seconds attr_dBFS : AudioSegment.t -> float.


End Readers.

(** A computation that leaves the file system as it found it. *)
Definition read_only {A} (c : M FS A) : Prop :=
  forall fs, (c fs).2 = fs.

(** The [except] clauses of a guarded wrapper around its body, and their
    absence. *)
Definition guarded (c : M FS unit) : M FS unit := try_except c reraise.
Definition unguarded (c : M FS unit) : M FS unit := c.

(** A wrapper whose one write is its last step: on every file system it
    either raises before it exports, with nothing written, or it does what
    the export of some segment to [path] does, inside [guard]. *)
Definition exports_last (guard : M FS unit -> M FS unit) (path : string)
    (c : M FS unit) : Prop :=
  forall fs,
    (exists e, c fs = (inl e, fs))
    \/ (exists a, c fs = guard (export a path) fs).

(** ** Python strings and paths *)

(** [s.endswith(suffix)] *)
Definition endswith (s suffix : string) : bool :=
  let n := String.length s in
  let k := String.length suffix in
  (k <=? n)%nat && String.eqb (String.substring (n - k) k s) suffix.

(** [s.startswith(prefix)] *)
Definition startswith (s prefix : string) : bool := String.prefix prefix s.

(** [os.path.join(a, b)] of [posixpath]. *)
Definition os_path_join (a b : string) : string :=
  if startswith b "/" then b
  else if String.eqb a EmptyString || endswith a "/" then a +:+ b
  else a +:+ "/" +:+ b.

(** ** [list.sort(key=..., reverse=True)]

    Scores are the finite numbers the similarity call returns, taken as exact
    rationals.  The sort compares keys with [<] only and is stable; with
    [reverse=True] the list is reversed, sorted in ascending order and
    reversed again, which is how equal keys keep their order.  On keys that
    [<] orders consistently every stable sort returns the same list, so
    insertion stands for the sort that Python runs. *)

Definition Qltb (x y : Q) : bool := negb (Qle_bool y x).

Section Sort.
Context {A : Type} (key : A -> Q).

Fixpoint insert_sorted (x : A) (l : list A) : list A :=
  match l with
  | [] => [x]
  | y :: l' => if Qltb (key y) (key x) then y :: insert_sorted x l'
               else x :: y :: l'
  end.

Definition stable_sort (l : list A) : list A := foldr insert_sorted [] l.

Definition list_sort (reverse : bool) (l : list A) : list A :=
  if reverse then rev (stable_sort (rev l)) else stable_sort l.

(** Ascending and descending order of the keys. *)
Definition ascending (x y : A) : Prop := (key x <= key y)%Q.
Definition descending (x y : A) : Prop := (key y <= key x)%Q.

(** The elements whose key equals [q], in the order of the list. *)
Definition with_key (q : Q) (l : list A) : list A :=
  List.filter (fun x => Qeq_bool (key x) q) l.
End Sort.

(** ** msclap's CLAP and the directory *)

Section Retriever.
(** What an embedding is stays with the model. *)
Variable embedding : Type.

(** The model handle: the three calls the retriever makes.  The source
    passes one-element batches; the functions take the element. *)
Record CLAP : Type := {
  get_text_embeddings : string -> exn + embedding;
  get_audio_embeddings : string -> exn + embedding;
  compute_similarity : embedding -> embedding -> exn + Q
}.

(** What the call reads from outside: the constructor of the model,
    [CLAP(version='2023', use_cuda=False)], and [os.listdir], which returns
    the entry names of a folder in enumeration order. *)
Record Env : Type := {
  CLAP_new : exn + CLAP;
  os_listdir : string -> exn + list string
}.

(** One invocation of the external model. *)
Inductive call : Type :=
| LoadModel
| EmbedText (text : string)
| EmbedAudio (path : string)
| Similarity (audio text : embedding).

Definition is_embed_text (c : call) : bool :=
  match c with EmbedText _ => true | _ => false end.
Definition is_embed_audio (c : call) : bool :=
  match c with EmbedAudio _ => true | _ => false end.
Definition is_similarity (c : call) : bool :=
  match c with Similarity _ _ => true | _ => false end.

(** The state of a retrieval is the log of the model calls made so far; a
    call is logged whether it returns or raises. *)
Definition invoke {A} (c : call) (r : exn + A) : M (list call) A :=
  fun log => (r, log ++ [c]).

(** [for x in xs: body], with the variables the body assigns as the
    accumulator. *)
Fixpoint for_each {S A B} (xs : list A) (acc : B) (body : B -> A -> M S B)
  : M S B :=
  match xs with
  | [] => ret acc
  | x :: xs' => let* acc' := body acc x in for_each xs' acc' body
  end.

(** *** soundhub/retrieve.py *)

(** The body of the loop of [retrieve_audio]; [similarities] is the list it
    appends to. *)
Definition loop_body (clap_model : CLAP) (text_embeddings : embedding)
    (similarities : list (string * Q)) (audio_file : string)
  : M (list call) (list (string * Q)) :=
  let* audio_embeddings :=
    invoke (EmbedAudio audio_file)
           (get_audio_embeddings clap_model audio_file) in
  let* similarity :=
    invoke (Similarity audio_embeddings text_embeddings)
           (compute_similarity clap_model audio_embeddings
              text_embeddings) in
  ret (similarities ++ [(audio_file, similarity)]).

Definition retrieve_audio (env : Env) (query_text audio_folder : string)
    (top_n : Z) : M (list call) (list string) :=
  let* clap_model := invoke LoadModel (CLAP_new env) in
  let* names := lift (os_listdir env audio_folder) in
  let audio_files :=
    map (os_path_join audio_folder)
        (List.filter (fun f => endswith f ".wav") names) in
  let* text_embeddings :=
    invoke (EmbedText query_text)
           (get_text_embeddings clap_model query_text) in
  let similarities : list (string * Q) := [] in
  let* similarities :=
    for_each audio_files similarities
             (loop_body clap_model text_embeddings) in
  let similarities := list_sort snd true similarities in
  let top_similar_audio_files :=
    map fst (py_slice_to similarities top_n) in
  ret top_similar_audio_files.

(** The candidate files of a folder listing, as [retrieve_audio] builds
    them. *)
Definition candidates (audio_folder : string) (names : list string)
  : list string :=
  map (os_path_join audio_folder)
      (List.filter (fun f => endswith f ".wav") names).

(** The score the model gives a file against a text embedding: the two
    calls of the loop body, without the log. *)
Definition score_file (m : CLAP) (t : embedding) (f : string) : exn + Q :=
  match get_audio_embeddings m f with
  | inr a => compute_similarity m a t
  | inl e => inl e
  end.

(** The score as a number, for statements about runs in which the model
    answers. *)
Definition score_of (m : CLAP) (t : embedding) (f : string) : Q :=
  match score_file m t f with inr s => s | inl _ => 0%Q end.

(** The candidates paired with their scores: the list [similarities] when
    the loop ends normally. *)
Definition scored (m : CLAP) (t : embedding) (files : list string)
  : list (string * Q) :=
  map (fun f => (f, score_of m t f)) files.

(** The ranking of the candidates, before it is cut at [top_n]. *)
Definition ranking (m : CLAP) (t : embedding) (files : list string)
  : list string :=
  map fst (list_sort snd true (scored m t files)).

(** The model gives every file of the list a score. *)
Definition model_answers (m : CLAP) (t : embedding) (files : list string)
  : bool :=
  forallb (fun f => match score_file m t f with
                    | inr _ => true
                    | inl _ => false
                    end) files.

(** The model calls one pass of the loop makes for a file: the audio
    embedding, and the similarity when the embedding came back. *)
Definition calls_of (m : CLAP) (t : embedding) (f : string) : list call :=
  EmbedAudio f ::
  match get_audio_embeddings m f with
  | inr a => [Similarity a t]
  | inl _ => []
  end.
End Retriever.

Arguments get_text_embeddings {embedding}.
Arguments get_audio_embeddings {embedding}.
Arguments compute_similarity {embedding}.
Arguments CLAP_new {embedding}.
Arguments os_listdir {embedding}.
Arguments LoadModel {embedding}.
Arguments EmbedText {embedding}.
Arguments EmbedAudio {embedding}.
Arguments Similarity {embedding}.
Arguments is_embed_text {embedding}.
Arguments is_embed_audio {embedding}.
Arguments is_similarity {embedding}.
Arguments invoke {embedding A}.
Arguments for_each {S A B}.
Arguments loop_body {embedding}.
Arguments retrieve_audio {embedding}.
Arguments score_file {embedding}.
Arguments score_of {embedding}.
Arguments scored {embedding}.
Arguments ranking {embedding}.
Arguments model_answers {embedding}.
Arguments calls_of {embedding}.

(** ** caption.py *)

(** What [generate_caption] may hand back, as far as the wrapper tells the
    cases apart: a list, a dict, or an object of another class. *)
Inductive captions : Type :=
| CapList (l : list string)
| CapDict (d : gmap string string)
| CapOther (cls : string).

(** The outcome of the wrapper: an exception of the model, or the
    [IndexError] of [captions[0]]. *)
Inductive caption_exn : Type :=
| Raised (e : exn)
| IndexError.

(** The captioning model: its constructor, [CLAP(version='clapcap',
    use_cuda=False)], and [generate_caption] on a one-element batch with the
    decoding parameters. *)
Record Captioner : Type := {
  generate_caption : string -> bool -> Z -> Z -> float -> exn + captions
}.

Definition audio_caption (clap_new : exn + Captioner)
    (audio_file_path : string) (resample : bool)
    (beam_size entry_length : Z) (temperature : float)
  : caption_exn + string :=
  match clap_new with
  | inl e => inl (Raised e)
  | inr clap_model =>
    match generate_caption clap_model audio_file_path resample beam_size
            entry_length temperature with
    | inl e => inl (Raised e)
    | inr captions =>
      match captions with
      | CapList l =>
        match l with
        | caption :: _ => inr caption
        | [] => inl IndexError
        end
      | CapDict d => inr (default EmptyString (d !! "caption"))
      | CapOther cls => inl (Raised (AttributeError cls "get"))
      end
    end
  end.

(** ** Concrete inputs for the examples *)

(** A stub model: an embedding is a number, known texts and files have one,
    and similarity is the negated distance. *)
Definition stub_text (text : string) : exn + Q :=
  if String.eqb text "a dog barking" then inr (10 # 1)
  else inl ModelError.

Definition stub_audio (path : string) : exn + Q :=
  if String.eqb path "sounds/dog.wav" then inr (9 # 1)
  else if String.eqb path "broken/dog.wav" then inr (9 # 1)
  else if String.eqb path "sounds/car.wav" then inr (2 # 1)
  else if String.eqb path "sounds/rain.wav" then inr (11 # 1)
  else if String.eqb path "sounds/wolf.wav" then inr (9 # 1)
  else inl ModelError.

Definition stub_similarity (a t : Q) : exn + Q :=
  inr (if Qle_bool a t then a - t else t - a)%Q.

Definition stub_model : CLAP Q :=
  {| get_text_embeddings := stub_text;
     get_audio_embeddings := stub_audio;
     compute_similarity := stub_similarity |}.

Definition stub_listdir (folder : string) : exn + list string :=
  if String.eqb folder "sounds"
  then inr ["dog.wav"; "notes.txt"; "car.wav"; "rain.wav"; "wolf.wav"]
  else if String.eqb folder "broken"
  then inr ["dog.wav"; "noise.wav"; "car.wav"]
  else if String.eqb folder "empty" then inr []
  else inl FileNotFoundError.

Definition stub_env : Env Q :=
  {| CLAP_new := inr stub_model; os_listdir := stub_listdir |}.

(** A small file system for the examples. *)
Definition fs0 : FS :=
  <["a.wav" := Wav [1; 2; 3]]> (<["b.wav" := Wav [10; 20]]>
  (<["bad.wav" := Undecodable]> ∅)).

(** Stub fades: the first or last [duration] samples are silenced. *)
Definition stub_fade_in (a : AudioSegment.t) (duration : Z)
  : exn + AudioSegment.t :=
  inr (map (fun _ => 0) (take (Z.to_nat duration) a)
       ++ drop (Z.to_nat duration) a).

Definition stub_fade_out (a : AudioSegment.t) (duration : Z)
  : exn + AudioSegment.t :=
  inr (take (length a - Z.to_nat duration) a
       ++ map (fun _ => 0) (drop (length a - Z.to_nat duration) a)).

(** A stub captioner that answers with a list, a dict or nothing at all,
    depending on the file. *)
Definition stub_generate_caption (path : string) (resample : bool)
    (beam_size entry_length : Z) (temperature : float) : exn + captions :=
  if String.eqb path "dog.wav"
  then inr (CapList ["a dog barks"; "an animal makes noise"])
  else if String.eqb path "silence.wav" then inr (CapList [])
  else if String.eqb path "rain.wav"
  then inr (CapDict {["caption" := "rain falls"]})
  else if String.eqb path "car.wav"
  then inr (CapDict {["score" := "0.3"]})
  else inl ModelError.

Definition stub_captioner : Captioner :=
  {| generate_caption := stub_generate_caption |}.

(** * Properties *)

(** ** Running the definitions *)

Example trim_ex :
  (trim "a.wav" "o.wav" (Some 2) 1 None fs0).2 !! "o.wav" = Some (Wav [2; 3]).
Proof. vm_compute. reflexivity. Qed.

Example mix_ex :
  mix ["a.wav"; "b.wav"] "o.wav" 1%float fs0
  = (inr tt, <["o.wav" := Wav [1; 2; 3; 10; 20]]> fs0).
Proof. vm_compute. reflexivity. Qed.

Example mix_vol_ex :
  mix ["a.wav"; "b.wav"] "o.wav" 0.5%float fs0
  = (inl (Exception_ (AttributeError "AudioSegment" "set_volume")), fs0).
Proof. vm_compute. reflexivity. Qed.

Example retrieve_ex :
  (retrieve_audio stub_env "a dog barking" "sounds" 3 []).1
  = inr ["sounds/dog.wav"; "sounds/rain.wav"; "sounds/wolf.wav"].
Proof. vm_compute. reflexivity. Qed.

Example concat_empty_ex :
  concat [] "o.wav" fs0 = (inl (AttributeError "int" "export"), fs0).
Proof. vm_compute. reflexivity. Qed.

(** ** The audio wrappers *)

Lemma from_file_state path fs : (from_file path fs).2 = fs.
Proof. unfold from_file. destruct (fs !! path) as [[]|]; reflexivity. Qed.

Lemma from_file_loads path fs a :
  fs !! path = Some (Wav a) -> from_file path fs = (inr a, fs).
Proof. unfold from_file. intros ->. reflexivity. Qed.

Lemma from_file_error path fs e :
  load_error fs path = Some e -> from_file path fs = (inl e, fs).
Proof.
  unfold load_error, from_file.
  destruct (fs !! path) as [[]|]; intros [= <-]; reflexivity.
Qed.

Lemma load_error_None path fs :
  load_error fs path = None -> exists a, fs !! path = Some (Wav a).
Proof.
  unfold load_error. destruct (fs !! path) as [[a|]|]; try discriminate.
  eauto.
Qed.

Lemma comprehension_loads paths : forall segs fs,
  loads fs paths segs -> comprehension from_file paths fs = (inr segs, fs).
Proof.
  induction paths as [|p paths IH]; intros segs fs H; inversion H; subst.
  - reflexivity.
  - cbn. unfold bind at 1. rewrite (from_file_loads _ _ _ H2).
    unfold bind at 1. rewrite (IH _ _ H4). reflexivity.
Qed.

(** The first path that does not load ends the comprehension with its
    error, whatever follows it. *)
Lemma comprehension_first_error good : forall segs p rest fs e,
  loads fs good segs -> load_error fs p = Some e ->
  comprehension from_file (good ++ p :: rest) fs = (inl e, fs).
Proof.
  induction good as [|q good IH]; intros segs p rest fs e H He;
    inversion H; subst; cbn.
  - unfold bind at 1. rewrite (from_file_error _ _ _ He). reflexivity.
  - unfold bind at 1. rewrite (from_file_loads _ _ _ H2).
    unfold bind at 1. rewrite (IH _ _ _ _ _ H4 He). reflexivity.
Qed.

(** Every list of paths either loads or splits at its first failing path. *)
Lemma loads_or_first_error fs paths :
  (exists segs, loads fs paths segs) \/
  (exists good segs p rest e,
      paths = good ++ p :: rest /\ loads fs good segs /\
      load_error fs p = Some e).
Proof.
  induction paths as [|p paths IH].
  - left. exists []. constructor.
  - destruct (load_error fs p) as [e|] eqn:He.
    + right. exists [], [], p, paths, e. repeat split; auto. constructor.
    + apply load_error_None in He as [a Ha].
      destruct IH as [[segs H] | (good & segs & q & rest & e & -> & H & He)].
      * left. exists (a :: segs). constructor; auto.
      * right. exists (p :: good), (a :: segs), q, rest, e.
        repeat split; auto. constructor; auto.
Qed.

Lemma py_sum_from_seg l : forall a,
  py_sum_from (PySeg a) l = inr (PySeg (a ++ mjoin l)).
Proof.
  induction l as [|b l IH]; intros a; cbn.
  - rewrite app_nil_r. reflexivity.
  - rewrite IH. unfold AudioSegment.append. rewrite <- app_assoc.
    reflexivity.
Qed.

(** [sum] of a non-empty list of segments is their concatenation. *)
Lemma py_sum_cons a l : py_sum (a :: l) = inr (PySeg (mjoin (a :: l))).
Proof. unfold py_sum. cbn. apply py_sum_from_seg. Qed.

Lemma loads_nonempty fs paths segs :
  loads fs paths segs -> paths <> [] -> exists a l, segs = a :: l.
Proof. intros H Hne. destruct H; [congruence | eauto]. Qed.

Lemma py_index_in_range n i : 0 <= i <= n -> py_index n i = i.
Proof.
  intros H. unfold py_index.
  destruct (Z.ltb_spec i 0); lia.
Qed.

(** Within the sequence, [l[i:j]] takes [j - i] elements after the first
    [i]. *)
Lemma py_slice_in_range {A} (l : list A) i j :
  0 <= i <= Z.of_nat (length l) -> 0 <= j <= Z.of_nat (length l) ->
  py_slice l i j = take (Z.to_nat (j - i)) (drop (Z.to_nat i) l).
Proof.
  intros Hi Hj. unfold py_slice. cbv zeta.
  rewrite !py_index_in_range by assumption. reflexivity.
Qed.

(** For a count that is not negative, [l[:n]] is the first [n] elements, or
    all of them when there are fewer. *)
Lemma py_slice_to_nonneg {A} (l : list A) n :
  0 <= n -> py_slice_to l n = take (Z.to_nat n) l.
Proof.
  intros Hn. unfold py_slice_to, py_slice, py_index. cbv zeta.
  replace (0 <? 0) with false by reflexivity.
  replace (n <? 0) with false by (symmetry; apply Z.ltb_ge; lia).
  rewrite (Z.min_l 0), Z.sub_0_r by lia. cbn [Z.to_nat drop].
  destruct (Z.le_gt_cases n (Z.of_nat (length l))).
  - rewrite (Z.min_l n) by lia. reflexivity.
  - rewrite (Z.min_r n), Nat2Z.id by lia.
    rewrite firstn_all, firstn_all2 by lia. reflexivity.
Qed.

(** Whatever the count, [l[:n]] is a prefix of [l]. *)
Lemma py_slice_to_prefix {A} (l : list A) n :
  exists k, py_slice_to l n = take k l.
Proof.
  unfold py_slice_to, py_slice. cbv zeta.
  rewrite (py_index_in_range _ 0) by lia. cbn [Z.to_nat drop]. eauto.
Qed.

Lemma parse_position_nonneg a v :
  0 <= v -> AudioSegment.parse_position a v = v.
Proof.
  intros H. unfold AudioSegment.parse_position.
  destruct (Z.ltb_spec v 0); lia.
Qed.

Lemma py_slice_whole {A} (l : list A) :
  py_slice l 0 (Z.of_nat (length l)) = l.
Proof.
  rewrite py_slice_in_range by lia.
  rewrite Z.sub_0_r, Nat2Z.id. cbn [Z.to_nat drop]. apply firstn_all.
Qed.

Lemma getitem_whole a :
  AudioSegment.getitem a 0 (AudioSegment.len a) = inr a.
Proof.
  assert (Hn : 0 <= AudioSegment.len a) by (unfold AudioSegment.len; lia).
  unfold AudioSegment.getitem. cbv zeta.
  rewrite (Z.min_l 0), Z.min_id, !parse_position_nonneg by lia.
  assert (Hd : py_slice a 0 (AudioSegment.len a) = a)
    by apply py_slice_whole.
  rewrite !Hd, Z.sub_0_r, Z.sub_diag. reflexivity.
Qed.

Lemma getitem_past_end a start :
  AudioSegment.len a < start ->
  AudioSegment.getitem a start (AudioSegment.len a) = inr [].
Proof.
  intros Hs.
  assert (Hn : 0 <= AudioSegment.len a) by (unfold AudioSegment.len; lia).
  unfold AudioSegment.getitem. cbv zeta.
  rewrite (Z.min_r start), Z.min_id, !parse_position_nonneg by lia.
  rewrite py_slice_in_range by (unfold AudioSegment.len in *; lia).
  rewrite Z.sub_diag. cbn [Z.to_nat take]. reflexivity.
Qed.

(** C6: trimming a clip of duration D from 0 with trim_length D writes the
    clip itself, so the output has duration D.  An [end_time] passed along
    is overridden by [trim_length]. *)
Theorem trim_identity (fs : FS) (audio_path output_path : string)
    (a : AudioSegment.t) (D : Z) (end_time : option Z) :
  fs !! audio_path = Some (Wav a) ->
  AudioSegment.len a = D ->
  trim audio_path output_path (Some D) 0 end_time fs
  = (inr tt, <[output_path := Wav a]> fs)
  /\ exists b,
       (trim audio_path output_path (Some D) 0 end_time fs).2 !! output_path
       = Some (Wav b)
       /\ AudioSegment.len b = D.
Proof.
  intros Ha HD.
  assert (Hrun : trim audio_path output_path (Some D) 0 end_time fs
                 = (inr tt, <[output_path := Wav a]> fs)).
  { subst D. unfold trim, bind. rewrite (from_file_loads _ _ _ Ha).
    rewrite Z.add_0_l, Z.min_id. unfold lift. rewrite getitem_whole.
    reflexivity. }
  split; [exact Hrun|].
  exists a. rewrite Hrun. split; [apply lookup_insert_eq | exact HD].
Qed.

Lemma trim_identity_witness :
  trim "a.wav" "o.wav" (Some 3) 0 None fs0
  = (inr tt, <["o.wav" := Wav [1; 2; 3]]> fs0)
  /\ exists b,
       (trim "a.wav" "o.wav" (Some 3) 0 None fs0).2 !! "o.wav" = Some (Wav b)
       /\ AudioSegment.len b = 3.
Proof.
  apply (trim_identity fs0 "a.wav" "o.wav" [1; 2; 3] 3 None); reflexivity.
Defined.

(** C7: [concat] of two clips A and B writes A's samples followed by B's,
    a clip of duration a+b. *)
Theorem concat_two (fs : FS) (path_a path_b output_path : string)
    (a b : AudioSegment.t) :
  fs !! path_a = Some (Wav a) ->
  fs !! path_b = Some (Wav b) ->
  concat [path_a; path_b] output_path fs
  = (inr tt, <[output_path := Wav (a ++ b)]> fs)
  /\ AudioSegment.len (a ++ b) = AudioSegment.len a + AudioSegment.len b.
Proof.
  intros Ha Hb. split.
  - unfold concat, bind.
    rewrite (comprehension_loads [path_a; path_b] [a; b]).
    + unfold lift. rewrite py_sum_cons. cbn. rewrite app_nil_r. reflexivity.
    + repeat constructor; assumption.
  - unfold AudioSegment.len. rewrite length_app. lia.
Qed.

Lemma concat_two_witness :
  concat ["a.wav"; "b.wav"] "o.wav" fs0
  = (inr tt, <["o.wav" := Wav ([1; 2; 3] ++ [10; 20])]> fs0)
  /\ AudioSegment.len ([1; 2; 3] ++ [10; 20])
     = AudioSegment.len [1; 2; 3] + AudioSegment.len [10; 20].
Proof.
  apply (concat_two fs0 "a.wav" "b.wav" "o.wav" [1; 2; 3] [10; 20]);
    reflexivity.
Defined.

(** C10: [trim] clamps [end_time] to the duration and passes [start_time] on
    as it is.  With a start past the end of the clip, and neither
    [trim_length] nor [end_time] given, it returns normally and writes the
    empty clip, of duration 0; an [end_time] at or past the duration is the
    same as none. *)
Theorem trim_start_past_end (fs : FS) (audio_path output_path : string)
    (a : AudioSegment.t) (start_time : Z) :
  fs !! audio_path = Some (Wav a) ->
  AudioSegment.len a < start_time ->
  trim audio_path output_path None start_time None fs
  = (inr tt, <[output_path := Wav []]> fs)
  /\ AudioSegment.len [] = 0
  /\ forall end_time, AudioSegment.len a <= end_time ->
       trim audio_path output_path None start_time (Some end_time) fs
       = trim audio_path output_path None start_time None fs.
Proof.
  intros Ha Hs. split; [|split].
  - unfold trim, bind. rewrite (from_file_loads _ _ _ Ha).
    rewrite Z.min_id. unfold lift. rewrite (getitem_past_end _ _ Hs).
    reflexivity.
  - reflexivity.
  - intros end_time He. unfold trim, bind.
    rewrite (from_file_loads _ _ _ Ha).
    rewrite Z.min_id, Z.min_r by lia. reflexivity.
Qed.

Lemma trim_start_past_end_witness :
  trim "a.wav" "o.wav" None 7 None fs0 = (inr tt, <["o.wav" := Wav []]> fs0)
  /\ AudioSegment.len [] = 0
  /\ forall end_time, AudioSegment.len [1; 2; 3] <= end_time ->
       trim "a.wav" "o.wav" None 7 (Some end_time) fs0
       = trim "a.wav" "o.wav" None 7 None fs0.
Proof.
  apply (trim_start_past_end fs0 "a.wav" "o.wav" [1; 2; 3] 7);
    [reflexivity | vm_compute; reflexivity].
Defined.

(** *** [mix] and [mix_two] *)

Lemma reraise_run {A} (e : exn) (fs : FS) :
  @reraise A e fs = (inl (reraised e), fs).
Proof. reflexivity. Qed.

(** With the default volume and files that load, [mix] does what [concat]
    does: it writes the segments joined end to end. *)
Lemma mix_loads fs paths segs out v :
  loads fs paths segs -> paths <> [] -> volume_changed v = false ->
  mix paths out v fs = (inr tt, <[out := Wav (mjoin segs)]> fs).
Proof.
  intros H Hne Hv. destruct (loads_nonempty _ _ _ H Hne) as (a & l & ->).
  unfold mix, try_except, bind. rewrite (comprehension_loads _ _ _ H), Hv.
  unfold ret, lift. rewrite py_sum_cons. reflexivity.
Qed.

Lemma concat_loads fs paths segs out :
  loads fs paths segs -> paths <> [] ->
  concat paths out fs = (inr tt, <[out := Wav (mjoin segs)]> fs).
Proof.
  intros H Hne. destruct (loads_nonempty _ _ _ H Hne) as (a & l & ->).
  unfold concat, bind. rewrite (comprehension_loads _ _ _ H).
  unfold lift. rewrite py_sum_cons. reflexivity.
Qed.

Lemma mix_two_loads fs p1 p2 a1 a2 out v :
  fs !! p1 = Some (Wav a1) -> fs !! p2 = Some (Wav a2) ->
  volume_changed v = false ->
  mix_two p1 p2 out v fs = (inr tt, <[out := Wav (a1 ++ a2)]> fs).
Proof.
  intros H1 H2 Hv. unfold mix_two, try_except, bind.
  rewrite (from_file_loads _ _ _ H1), (from_file_loads _ _ _ H2), Hv.
  reflexivity.
Qed.

(** The first file that does not load decides the outcome of [mix], at any
    volume: its error is raised again and nothing is written. *)
Lemma mix_first_error fs good segs p rest e out v :
  loads fs good segs -> load_error fs p = Some e ->
  mix (good ++ p :: rest) out v fs = (inl (reraised e), fs).
Proof.
  intros H He. unfold mix, try_except, bind.
  rewrite (comprehension_first_error _ _ _ _ _ _ H He).
  apply reraise_run.
Qed.







Lemma overlay_self a : AudioSegment.overlay a a = map (fun x => 2 * x) a.
Proof.
  induction a as [|x a IH]; cbn [AudioSegment.overlay map].
  - reflexivity.
  - rewrite IH. f_equal. lia.
Qed.

(** C1: what [mix] and [mix_two] do at volume 1.0.  The [+] of two segments
    appends, and [sum] is built from it, so both write the clips joined end to
    end, exactly as [concat] does: a clip of duration D mixed with itself
    gives duration 2D with the samples repeated, where the sample-wise sum
    ([overlay]) would have duration D and doubled samples. *)
Theorem mix_is_concatenation (fs : FS) (paths : list string)
    (segs : list AudioSegment.t) (path output_path : string)
    (a : AudioSegment.t) :
  loads fs paths segs -> paths <> [] -> fs !! path = Some (Wav a) ->
  mix paths output_path 1%float fs
  = (inr tt, <[output_path := Wav (mjoin segs)]> fs)
  /\ mix paths output_path 1%float fs = concat paths output_path fs
  /\ mix [path; path] output_path 1%float fs
     = (inr tt, <[output_path := Wav (a ++ a)]> fs)
  /\ mix_two path path output_path 1%float fs
     = (inr tt, <[output_path := Wav (a ++ a)]> fs)
  /\ AudioSegment.len (a ++ a) = 2 * AudioSegment.len a
  /\ AudioSegment.overlay a a = map (fun x => 2 * x) a
  /\ AudioSegment.len (AudioSegment.overlay a a) = AudioSegment.len a.
Proof.
  intros H Hne Ha.
  assert (Hv : volume_changed 1%float = false) by reflexivity.
  split; [|split; [|split; [|split; [|split; [|split]]]]].
  - apply mix_loads; assumption.
  - rewrite (mix_loads _ _ _ _ _ H Hne Hv), (concat_loads _ _ _ _ H Hne).
    reflexivity.
  - rewrite (mix_loads fs [path; path] [a; a]).
    + cbn. rewrite app_nil_r. reflexivity.
    + repeat constructor; assumption.
    + discriminate.
    + assumption.
  - apply mix_two_loads; assumption.
  - unfold AudioSegment.len. rewrite length_app. lia.
  - apply overlay_self.
  - rewrite overlay_self. unfold AudioSegment.len. rewrite length_map.
    reflexivity.
Qed.

Lemma mix_is_concatenation_witness :
  mix ["a.wav"; "b.wav"] "o.wav" 1%float fs0
  = (inr tt, <["o.wav" := Wav (mjoin [[1; 2; 3]; [10; 20]])]> fs0)
  /\ mix ["a.wav"; "b.wav"] "o.wav" 1%float fs0
     = concat ["a.wav"; "b.wav"] "o.wav" fs0
  /\ mix ["a.wav"; "a.wav"] "o.wav" 1%float fs0
     = (inr tt, <["o.wav" := Wav ([1; 2; 3] ++ [1; 2; 3])]> fs0)
  /\ mix_two "a.wav" "a.wav" "o.wav" 1%float fs0
     = (inr tt, <["o.wav" := Wav ([1; 2; 3] ++ [1; 2; 3])]> fs0)
  /\ AudioSegment.len ([1; 2; 3] ++ [1; 2; 3]) = 2 * AudioSegment.len [1; 2; 3]
  /\ AudioSegment.overlay [1; 2; 3] [1; 2; 3]
     = map (fun x => 2 * x) [1; 2; 3]
  /\ AudioSegment.len (AudioSegment.overlay [1; 2; 3] [1; 2; 3])
     = AudioSegment.len [1; 2; 3].
Proof.
  apply (mix_is_concatenation fs0 ["a.wav"; "b.wav"] [[1; 2; 3]; [10; 20]]
           "a.wav" "o.wav" [1; 2; 3]).
  - repeat constructor.
  - discriminate.
  - reflexivity.
Defined.




(** ** The sort *)

Lemma Qltb_true x y : Qltb x y = true <-> (x < y)%Q.
Proof.
  unfold Qltb. rewrite negb_true_iff. split.
  - intros H. apply Qnot_le_lt. intros Hle.
    apply Qle_bool_iff in Hle. congruence.
  - intros H. destruct (Qle_bool y x) eqn:E; [|reflexivity].
    apply Qle_bool_iff in E. destruct (Qlt_not_le _ _ H E).
Qed.

Lemma Qltb_false x y : Qltb x y = false <-> (y <= x)%Q.
Proof.
  unfold Qltb. rewrite negb_false_iff. apply Qle_bool_iff.
Qed.

Section SortFacts.
Context {A : Type} (key : A -> Q).

Lemma insert_sorted_perm x l :
  Permutation (insert_sorted key x l) (x :: l).
Proof.
  induction l as [|y l IH]; cbn [insert_sorted].
  - reflexivity.
  - destruct (Qltb (key y) (key x)).
    + rewrite IH. apply perm_swap.
    + reflexivity.
Qed.

Lemma stable_sort_perm l : Permutation (stable_sort key l) l.
Proof.
  induction l as [|x l IH]; cbn [stable_sort foldr].
  - reflexivity.
  - fold (stable_sort key l). rewrite insert_sorted_perm.
    apply perm_skip, IH.
Qed.

Lemma insert_sorted_sorted x l :
  StronglySorted (ascending key) l ->
  StronglySorted (ascending key) (insert_sorted key x l).
Proof.
  induction 1 as [|y l Hl IH Hy]; cbn [insert_sorted].
  - repeat constructor.
  - destruct (Qltb (key y) (key x)) eqn:E.
    + constructor; [assumption|].
      apply List.Forall_forall. intros z Hz.
      apply (Permutation_in _ (insert_sorted_perm x l)) in Hz.
      destruct Hz as [<- | Hz].
      * apply Qltb_true in E. apply Qlt_le_weak, E.
      * rewrite List.Forall_forall in Hy. apply Hy, Hz.
    + apply Qltb_false in E.
      constructor; [constructor; assumption|].
      constructor; [exact E|].
      eapply List.Forall_impl; [|exact Hy].
      intros z Hz. unfold ascending in *. eapply Qle_trans; eassumption.
Qed.

Lemma stable_sort_sorted l : StronglySorted (ascending key) (stable_sort key l).
Proof.
  induction l as [|x l IH]; cbn [stable_sort foldr].
  - constructor.
  - apply insert_sorted_sorted, IH.
Qed.

(** Insertion moves [x] only past elements with a smaller key, so the
    elements of any one key keep their order. *)
Lemma insert_sorted_with_key q x l :
  with_key key q (insert_sorted key x l) = with_key key q (x :: l).
Proof.
  induction l as [|y l IH]; cbn [insert_sorted].
  - reflexivity.
  - destruct (Qltb (key y) (key x)) eqn:E; [|reflexivity].
    apply Qltb_true in E.
    unfold with_key in *. cbn [List.filter] in *. rewrite IH.
    destruct (Qeq_bool (key y) q) eqn:Ey, (Qeq_bool (key x) q) eqn:Ex;
      try reflexivity.
    apply Qeq_bool_eq in Ey, Ex. rewrite Ey, Ex in E.
    destruct (Qlt_irrefl _ E).
Qed.

Lemma stable_sort_with_key q l :
  with_key key q (stable_sort key l) = with_key key q l.
Proof.
  induction l as [|x l IH]; cbn [stable_sort foldr].
  - reflexivity.
  - fold (stable_sort key l). rewrite insert_sorted_with_key.
    unfold with_key in *. cbn [List.filter]. rewrite IH. reflexivity.
Qed.

Lemma StronglySorted_snoc (R : A -> A -> Prop) l x :
  StronglySorted R l -> Forall (fun y => R y x) l ->
  StronglySorted R (l ++ [x]).
Proof.
  induction 1 as [|y l Hl IH Hy]; intros Hx; cbn.
  - repeat constructor.
  - inversion Hx; subst. constructor; [auto|].
    apply List.Forall_app. split; [assumption | repeat constructor; assumption].
Qed.

Lemma StronglySorted_rev (R : A -> A -> Prop) l :
  StronglySorted R l -> StronglySorted (fun x y => R y x) (rev l).
Proof.
  induction 1 as [|y l Hl IH Hy]; cbn [rev].
  - constructor.
  - apply StronglySorted_snoc; [assumption|].
    apply List.Forall_rev. assumption.
Qed.

(** In a sorted list every element of a prefix is related to every element
    of the rest. *)
Lemma StronglySorted_take_drop (R : A -> A -> Prop) l :
  StronglySorted R l ->
  forall n x y, In x (take n l) -> In y (drop n l) -> R x y.
Proof.
  induction 1 as [|z l Hl IH Hz]; intros n x y Hx Hy.
  - destruct n; destruct Hx.
  - destruct n as [|n]; [destruct Hx|].
    cbn [take drop] in *. destruct Hx as [<- | Hx].
    + rewrite List.Forall_forall in Hz. apply Hz.
      rewrite <- (firstn_skipn n l). apply in_or_app. right. assumption.
    + eapply IH; eassumption.
Qed.

(** *** [sort(key=..., reverse=True)] *)

Lemma list_sort_reverse_perm l : Permutation (list_sort key true l) l.
Proof.
  unfold list_sort. rewrite <- Permutation_rev, stable_sort_perm.
  symmetry. apply Permutation_rev.
Qed.

Lemma list_sort_reverse_sorted l :
  StronglySorted (descending key) (list_sort key true l).
Proof.
  unfold list_sort.
  apply (StronglySorted_rev (ascending key)), stable_sort_sorted.
Qed.

Lemma list_sort_reverse_stable q l :
  with_key key q (list_sort key true l) = with_key key q l.
Proof.
  unfold list_sort, with_key. rewrite filter_rev.
  fold (with_key key q (stable_sort key (rev l))).
  rewrite stable_sort_with_key. unfold with_key.
  rewrite filter_rev, rev_involutive. reflexivity.
Qed.

(** Filtering a prefix gives a prefix of the filtered list. *)
Lemma filter_take_prefix (f : A -> bool) l :
  forall n, exists k, List.filter f (take n l) = take k (List.filter f l).
Proof.
  induction l as [|x l IH]; intros n.
  - exists 0%nat. destruct n; reflexivity.
  - destruct n as [|n]; [exists 0%nat; reflexivity|].
    destruct (IH n) as [k Hk]. cbn [take List.filter].
    destruct (f x).
    + exists (S k). cbn [take]. rewrite Hk. reflexivity.
    + exists k. assumption.
Qed.
End SortFacts.

(** ** The retriever *)

Lemma py_slice_map {A B} (f : A -> B) (l : list A) i j :
  map f (py_slice l i j) = py_slice (map f l) i j.
Proof.
  unfold py_slice. cbv zeta.
  rewrite length_map, <- firstn_map, <- skipn_map. reflexivity.
Qed.

Section RetrieverFacts.
Context {embedding : Type}.
Variable m : CLAP embedding.
Variable t : embedding.

Lemma loop_body_run acc f log :
  loop_body m t acc f log
  = (match score_file m t f with
     | inr s => inr (acc ++ [(f, s)])
     | inl e => inl e
     end, log ++ calls_of m t f).
Proof.
  unfold loop_body, bind, invoke, ret, score_file, calls_of.
  destruct (get_audio_embeddings m f) as [e|a].
  - reflexivity.
  - destruct (compute_similarity m a t) as [e|s];
      rewrite <- app_assoc; reflexivity.
Qed.

Lemma model_answers_cons f files :
  model_answers m t (f :: files) = true ->
  (exists s, score_file m t f = inr s) /\ model_answers m t files = true.
Proof.
  unfold model_answers. cbn [forallb]. intros H.
  apply andb_true_iff in H as [Hf H]. split; [|assumption].
  destruct (score_file m t f) as [e|s]; [discriminate | eauto].
Qed.

Lemma score_of_inr f s : score_file m t f = inr s -> score_of m t f = s.
Proof. unfold score_of. intros ->. reflexivity. Qed.

(** A loop over files the model answers for ends normally: it has scored
    every file, in order, with the two calls per file in the log. *)
Lemma for_each_answers files : forall acc log,
  model_answers m t files = true ->
  for_each files acc (loop_body m t) log
  = (inr (acc ++ scored m t files),
     log ++ flat_map (calls_of m t) files).
Proof.
  induction files as [|f files IH]; intros acc log H.
  - cbn. rewrite !app_nil_r. reflexivity.
  - apply model_answers_cons in H as [[s Hs] H].
    cbn [for_each]. unfold bind at 1. rewrite loop_body_run, Hs.
    rewrite (IH _ _ H). cbn [scored map flat_map].
    rewrite (score_of_inr _ _ Hs), <- !app_assoc. reflexivity.
Qed.

(** The first file the model fails on ends the loop with that failure;
    the files after it are never passed to the model. *)
Lemma for_each_first_error good : forall f rest e acc log,
  model_answers m t good = true -> score_file m t f = inl e ->
  for_each (good ++ f :: rest) acc (loop_body m t) log
  = (inl e, log ++ flat_map (calls_of m t) good ++ calls_of m t f).
Proof.
  induction good as [|g good IH]; intros f rest e acc log H He.
  - cbn [app for_each flat_map]. unfold bind at 1.
    rewrite loop_body_run, He. reflexivity.
  - apply model_answers_cons in H as [[s Hs] H].
    cbn [app for_each]. unfold bind at 1. rewrite loop_body_run, Hs.
    rewrite (IH _ _ _ _ _ H He). cbn [flat_map].
    rewrite <- !app_assoc. reflexivity.
Qed.

Lemma first_failing files f e :
  In f files -> score_file m t f = inl e ->
  exists good f' rest e',
    files = good ++ f' :: rest /\ model_answers m t good = true /\
    score_file m t f' = inl e'.
Proof.
  induction files as [|g files IH]; intros Hin He; [destruct Hin|].
  destruct (score_file m t g) as [e'|s] eqn:Hg.
  - exists [], g, files, e'. repeat split; assumption.
  - destruct Hin as [-> | Hin]; [congruence|].
    destruct (IH Hin He) as (good & f' & rest & e' & -> & H & He').
    exists (g :: good), f', rest, e'. repeat split; [|assumption].
    unfold model_answers in *. cbn [forallb]. rewrite Hg, H. reflexivity.
Qed.
End RetrieverFacts.

(** *** The ranking *)

Section Ranking.
Context {embedding : Type}.
Variable m : CLAP embedding.
Variable t : embedding.

Lemma map_fst_scored files : map fst (scored m t files) = files.
Proof.
  unfold scored. rewrite map_map. cbn. apply map_id.
Qed.

(** A list of pairs whose second component is the score of the first is
    determined by its first components. *)
Lemma scored_map_fst (l : list (string * Q)) :
  Forall (fun p => p.2 = score_of m t p.1) l ->
  l = scored m t (map fst l).
Proof.
  induction 1 as [|[f s] l Hp Hl IH]; cbn in *.
  - reflexivity.
  - subst s. f_equal. exact IH.
Qed.

Lemma scored_consistent files :
  Forall (fun p => p.2 = score_of m t p.1) (scored m t files).
Proof.
  unfold scored. apply List.Forall_forall. intros p Hp.
  apply in_map_iff in Hp as (f & <- & _). reflexivity.
Qed.

Lemma with_key_scored q files :
  with_key snd q (scored m t files)
  = scored m t (with_key (score_of m t) q files).
Proof.
  unfold with_key, scored.
  induction files as [|f files IH]; cbn [map List.filter snd].
  - reflexivity.
  - destruct (Qeq_bool (score_of m t f) q); cbn [map]; rewrite IH;
      reflexivity.
Qed.

Lemma sorted_scored (l : list string) :
  StronglySorted (descending snd) (scored m t l) ->
  StronglySorted (descending (score_of m t)) l.
Proof.
  induction l as [|f l IH]; cbn [scored map]; intros H.
  - constructor.
  - inversion H as [|? ? Hl Hf]; subst. constructor; [auto|].
    apply List.Forall_forall. intros g Hg.
    rewrite List.Forall_forall in Hf.
    apply (Hf (g, score_of m t g)).
    apply in_map_iff. eauto.
Qed.

(** The sorted list of pairs is the ranking paired with its scores. *)
Lemma sort_scored files :
  list_sort snd true (scored m t files) = scored m t (ranking m t files).
Proof.
  unfold ranking. apply scored_map_fst.
  apply List.Forall_forall. intros p Hp.
  apply (Permutation_in _ (list_sort_reverse_perm snd _)) in Hp.
  pose proof (scored_consistent files) as H.
  rewrite List.Forall_forall in H. auto.
Qed.

(** The ranking holds the candidates, each as often as it was listed. *)
Lemma ranking_perm files : Permutation (ranking m t files) files.
Proof.
  unfold ranking.
  rewrite (Permutation_map fst (list_sort_reverse_perm snd _)).
  rewrite map_fst_scored. reflexivity.
Qed.

(** It is in descending order of score. *)
Lemma ranking_sorted files :
  StronglySorted (descending (score_of m t)) (ranking m t files).
Proof.
  apply sorted_scored. rewrite <- sort_scored.
  apply list_sort_reverse_sorted.
Qed.

(** Files of one score are ranked in the order they were listed. *)
Lemma ranking_stable q files :
  with_key (score_of m t) q (ranking m t files)
  = with_key (score_of m t) q files.
Proof.
  rewrite <- (map_fst_scored (with_key (score_of m t) q (ranking m t files))).
  rewrite <- with_key_scored, <- sort_scored, list_sort_reverse_stable.
  rewrite with_key_scored. apply map_fst_scored.
Qed.

Lemma ranking_length files : length (ranking m t files) = length files.
Proof. apply Permutation_length, ranking_perm. Qed.

(** *** Runs of [retrieve_audio] in which the model answers *)

Variable env : Env embedding.
Variables query_text audio_folder : string.
Variable names : list string.

Hypothesis model_loads : CLAP_new env = inr m.
Hypothesis folder_lists : os_listdir env audio_folder = inr names.
Hypothesis text_embeds : get_text_embeddings m query_text = inr t.

(** Runs the call up to its loop: the model is loaded, the folder listed and
    the query embedded. *)
Ltac enter_loop :=
  unfold retrieve_audio, bind at 1, invoke at 1;
  rewrite model_loads; unfold bind at 1, lift; rewrite folder_lists;
  unfold bind at 1, invoke at 1; rewrite text_embeds;
  unfold bind at 1; fold (candidates audio_folder names).

Lemma retrieve_audio_run top_n log :
  model_answers m t (candidates audio_folder names) = true ->
  retrieve_audio env query_text audio_folder top_n log
  = (inr (py_slice_to (ranking m t (candidates audio_folder names)) top_n),
     log ++ LoadModel :: EmbedText query_text ::
       flat_map (calls_of m t) (candidates audio_folder names)).
Proof.
  intros H. enter_loop.
  rewrite (for_each_answers m t _ _ _ H). unfold ret.
  cbn [app]. unfold py_slice_to. rewrite py_slice_map.
  fold (ranking m t (candidates audio_folder names)).
  rewrite <- !app_assoc. reflexivity.
Qed.

Lemma retrieve_audio_first_error good f rest e top_n log :
  candidates audio_folder names = good ++ f :: rest ->
  model_answers m t good = true -> score_file m t f = inl e ->
  retrieve_audio env query_text audio_folder top_n log
  = (inl e,
     log ++ LoadModel :: EmbedText query_text ::
       flat_map (calls_of m t) good ++ calls_of m t f).
Proof.
  intros Hc H He. enter_loop.
  rewrite Hc, (for_each_first_error m t _ _ _ _ _ _ H He).
  rewrite <- !app_assoc. reflexivity.
Qed.
End Ranking.

Lemma py_slice_to_In {A} (l : list A) n x : In x (py_slice_to l n) -> In x l.
Proof.
  destruct (py_slice_to_prefix l n) as [k ->]. intros H.
  rewrite <- (firstn_skipn k l). apply in_or_app. left. assumption.
Qed.

Lemma In_take_or_drop {A} (l : list A) n x :
  In x l -> In x (take n l) \/ In x (drop n l).
Proof.
  intros H. rewrite <- (firstn_skipn n l) in H.
  apply in_app_or in H. assumption.
Qed.

(** C2: with [0 < top_n < N] and a model that answers, [retrieve_audio]
    returns exactly [top_n] files, and each of them scores at least as high
    as every candidate it does not return. *)
Theorem retrieve_top_n {embedding : Type} (env : Env embedding)
    (m : CLAP embedding) (t : embedding) (query_text audio_folder : string)
    (names : list string) (top_n : Z) (log : list (call embedding)) :
  CLAP_new env = inr m ->
  os_listdir env audio_folder = inr names ->
  get_text_embeddings m query_text = inr t ->
  model_answers m t (candidates audio_folder names) = true ->
  0 < top_n < Z.of_nat (length (candidates audio_folder names)) ->
  exists result,
    (retrieve_audio env query_text audio_folder top_n log).1 = inr result
    /\ Z.of_nat (length result) = top_n
    /\ forall f g, In f result -> In g (candidates audio_folder names) ->
         ~ In g result -> (score_of m t g <= score_of m t f)%Q.
Proof.
  intros Hm Hl Ht Ha Hn.
  rewrite (retrieve_audio_run m t env _ _ names Hm Hl Ht _ _ Ha).
  eexists. split; [reflexivity|].
  rewrite py_slice_to_nonneg by lia.
  set (cands := candidates audio_folder names) in *.
  split.
  - rewrite length_take, ranking_length. lia.
  - intros f g Hf Hg Hng.
    apply (Permutation_in _ (Permutation_sym (ranking_perm m t cands))) in Hg.
    destruct (In_take_or_drop _ (Z.to_nat top_n) _ Hg) as [Hg' | Hg'];
      [destruct (Hng Hg')|].
    exact (StronglySorted_take_drop _ _ (ranking_sorted m t cands) _ _ _ Hf Hg').
Qed.

Lemma retrieve_top_n_witness :
  exists result,
    (retrieve_audio stub_env "a dog barking" "sounds" 2 []).1 = inr result
    /\ Z.of_nat (length result) = 2
    /\ forall f g, In f result ->
         In g (candidates "sounds"
                 ["dog.wav"; "notes.txt"; "car.wav"; "rain.wav"; "wolf.wav"]) ->
         ~ In g result ->
         (score_of stub_model (10 # 1) g <= score_of stub_model (10 # 1) f)%Q.
Proof.
  apply (retrieve_top_n stub_env stub_model (10 # 1) "a dog barking" "sounds"
           ["dog.wav"; "notes.txt"; "car.wav"; "rain.wav"; "wolf.wav"] 2 []);
    try reflexivity.
  vm_compute. split; reflexivity.
Defined.

(** C3: with a positive [top_n] and a model that answers, the result has
    [min(top_n, N)] files, all of them candidates (nothing is added to reach
    [top_n]); with [top_n >= N] it is all N candidates in descending order of
    score; and for a folder without candidates it is empty for every
    [top_n]. *)
Theorem retrieve_length {embedding : Type} (env : Env embedding)
    (m : CLAP embedding) (t : embedding) (query_text audio_folder : string)
    (names : list string) (top_n : Z) (log : list (call embedding)) :
  CLAP_new env = inr m ->
  os_listdir env audio_folder = inr names ->
  get_text_embeddings m query_text = inr t ->
  model_answers m t (candidates audio_folder names) = true ->
  0 < top_n ->
  exists result,
    (retrieve_audio env query_text audio_folder top_n log).1 = inr result
    /\ Z.of_nat (length result)
       = Z.min top_n (Z.of_nat (length (candidates audio_folder names)))
    /\ (forall f, In f result -> In f (candidates audio_folder names))
    /\ (Z.of_nat (length (candidates audio_folder names)) <= top_n ->
        Permutation result (candidates audio_folder names)
        /\ StronglySorted (descending (score_of m t)) result)
    /\ (candidates audio_folder names = [] ->
        forall n log',
          (retrieve_audio env query_text audio_folder n log').1 = inr []).
Proof.
  intros Hm Hl Ht Ha Hn.
  rewrite (retrieve_audio_run m t env _ _ names Hm Hl Ht _ _ Ha).
  eexists. split; [reflexivity|].
  set (cands := candidates audio_folder names) in *.
  split; [|split; [|split]].
  - rewrite py_slice_to_nonneg, length_take, ranking_length by lia. lia.
  - intros f Hf. apply py_slice_to_In in Hf.
    exact (Permutation_in _ (ranking_perm m t cands) Hf).
  - intros Hge. rewrite py_slice_to_nonneg by lia.
    rewrite firstn_all2 by (rewrite ranking_length; lia).
    split; [apply ranking_perm | apply ranking_sorted].
  - intros He n log'.
    rewrite (retrieve_audio_run m t env _ _ names Hm Hl Ht _ _ Ha).
    fold cands. rewrite He. cbn [fst].
    destruct (py_slice_to_prefix (ranking m t []) n) as [k ->].
    destruct k; reflexivity.
Qed.

Lemma retrieve_length_witness :
  exists result,
    (retrieve_audio stub_env "a dog barking" "sounds" 7 []).1 = inr result
    /\ Z.of_nat (length result)
       = Z.min 7 (Z.of_nat (length (candidates "sounds"
           ["dog.wav"; "notes.txt"; "car.wav"; "rain.wav"; "wolf.wav"])))
    /\ (forall f, In f result ->
          In f (candidates "sounds"
                  ["dog.wav"; "notes.txt"; "car.wav"; "rain.wav"; "wolf.wav"]))
    /\ (Z.of_nat (length (candidates "sounds"
          ["dog.wav"; "notes.txt"; "car.wav"; "rain.wav"; "wolf.wav"])) <= 7 ->
        Permutation result
          (candidates "sounds"
             ["dog.wav"; "notes.txt"; "car.wav"; "rain.wav"; "wolf.wav"])
        /\ StronglySorted (descending (score_of stub_model (10 # 1))) result)
    /\ (candidates "sounds"
          ["dog.wav"; "notes.txt"; "car.wav"; "rain.wav"; "wolf.wav"] = [] ->
        forall n log',
          (retrieve_audio stub_env "a dog barking" "sounds" n log').1
          = inr []).
Proof.
  apply (retrieve_length stub_env stub_model (10 # 1) "a dog barking" "sounds"
           ["dog.wav"; "notes.txt"; "car.wav"; "rain.wav"; "wolf.wav"] 7 []);
    reflexivity.
Defined.

(** C4: files with equal scores keep their enumeration order.  For every
    score, the returned files with that score are the first of the candidates
    with that score, in the order of the listing; when nothing is cut off
    they are all of them. *)
Theorem retrieve_ties_keep_order {embedding : Type} (env : Env embedding)
    (m : CLAP embedding) (t : embedding) (query_text audio_folder : string)
    (names : list string) (top_n : Z) (log : list (call embedding)) :
  CLAP_new env = inr m ->
  os_listdir env audio_folder = inr names ->
  get_text_embeddings m query_text = inr t ->
  model_answers m t (candidates audio_folder names) = true ->
  exists result,
    (retrieve_audio env query_text audio_folder top_n log).1 = inr result
    /\ forall q,
         (exists k,
            with_key (score_of m t) q result
            = take k (with_key (score_of m t) q
                        (candidates audio_folder names)))
         /\ (Z.of_nat (length (candidates audio_folder names)) <= top_n ->
             with_key (score_of m t) q result
             = with_key (score_of m t) q (candidates audio_folder names)).
Proof.
  intros Hm Hl Ht Ha.
  rewrite (retrieve_audio_run m t env _ _ names Hm Hl Ht _ _ Ha).
  eexists. split; [reflexivity|].
  set (cands := candidates audio_folder names) in *.
  intros q. split.
  - destruct (py_slice_to_prefix (ranking m t cands) top_n) as [k0 ->].
    destruct (filter_take_prefix
                (fun x => Qeq_bool (score_of m t x) q) (ranking m t cands) k0)
      as [k Hk].
    exists k. unfold with_key in *. rewrite Hk.
    fold (with_key (score_of m t) q (ranking m t cands)).
    rewrite ranking_stable. reflexivity.
  - intros Hge. rewrite py_slice_to_nonneg by lia.
    rewrite firstn_all2 by (rewrite ranking_length; lia).
    apply ranking_stable.
Qed.

Lemma retrieve_ties_keep_order_witness :
  exists result,
    (retrieve_audio stub_env "a dog barking" "sounds" 3 []).1 = inr result
    /\ forall q,
         (exists k,
            with_key (score_of stub_model (10 # 1)) q result
            = take k (with_key (score_of stub_model (10 # 1)) q
                 (candidates "sounds"
                    ["dog.wav"; "notes.txt"; "car.wav"; "rain.wav";
                     "wolf.wav"])))
         /\ (Z.of_nat (length (candidates "sounds"
               ["dog.wav"; "notes.txt"; "car.wav"; "rain.wav"; "wolf.wav"]))
             <= 3 ->
             with_key (score_of stub_model (10 # 1)) q result
             = with_key (score_of stub_model (10 # 1)) q
                 (candidates "sounds"
                    ["dog.wav"; "notes.txt"; "car.wav"; "rain.wav";
                     "wolf.wav"])).
Proof.
  apply (retrieve_ties_keep_order stub_env stub_model (10 # 1)
           "a dog barking" "sounds"
           ["dog.wav"; "notes.txt"; "car.wav"; "rain.wav"; "wolf.wav"] 3 []);
    reflexivity.
Defined.

(** Three files tie at the top score; they come back in listing order. *)
Example retrieve_ties_ex :
  score_of stub_model (10 # 1) "sounds/dog.wav" = (-1 # 1)%Q
  /\ score_of stub_model (10 # 1) "sounds/rain.wav" = (-1 # 1)%Q
  /\ score_of stub_model (10 # 1) "sounds/wolf.wav" = (-1 # 1)%Q
  /\ (retrieve_audio stub_env "a dog barking" "sounds" 2 []).1
     = inr ["sounds/dog.wav"; "sounds/rain.wav"].
Proof. vm_compute. repeat split. Qed.

Lemma calls_of_answers {embedding : Type} (m : CLAP embedding)
    (t : embedding) (f : string) (s : Q) :
  score_file m t f = inr s ->
  exists a, calls_of m t f = [EmbedAudio f; Similarity a t].
Proof.
  unfold score_file, calls_of.
  destruct (get_audio_embeddings m f) as [e|a]; [discriminate|]. eauto.
Qed.

Lemma model_answers_each {embedding : Type} (m : CLAP embedding)
    (t : embedding) (files : list string) :
  model_answers m t files = true ->
  Forall (fun f => exists a,
            get_audio_embeddings m f = inr a
            /\ calls_of m t f = [EmbedAudio f; Similarity a t]) files.
Proof.
  induction files as [|f files IH]; intros H; [constructor|].
  apply model_answers_cons in H as [[s Hs] H].
  constructor; [|auto].
  unfold score_file in Hs. unfold calls_of.
  destruct (get_audio_embeddings m f) as [e|a]; [discriminate|]. eauto.
Qed.

Lemma calls_of_counts {embedding : Type} (m : CLAP embedding)
    (t : embedding) (files : list string) :
  model_answers m t files = true ->
  List.filter is_embed_text (flat_map (calls_of m t) files) = []
  /\ List.filter is_embed_audio (flat_map (calls_of m t) files)
     = map EmbedAudio files
  /\ length (List.filter is_similarity (flat_map (calls_of m t) files))
     = length files.
Proof.
  induction files as [|f files IH]; intros H.
  - repeat split.
  - apply model_answers_cons in H as [[s Hs] H].
    destruct (IH H) as (IH1 & IH2 & IH3).
    destruct (calls_of_answers m t f s Hs) as [a Ha].
    cbn [flat_map]. rewrite Ha. cbn. rewrite IH1, IH2, IH3. repeat split.
Qed.

(** C5: in a run in which the model answers, the calls [retrieve_audio]
    adds to the log are: loading the model, the text embedding of the query,
    then for each candidate in turn its audio embedding and its similarity.
    So the query is embedded once whatever N is, each candidate is embedded
    once and scored once, N and N calls in all, whatever [top_n] is. *)
Theorem retrieve_model_calls {embedding : Type} (env : Env embedding)
    (m : CLAP embedding) (t : embedding) (query_text audio_folder : string)
    (names : list string) (top_n : Z) (log : list (call embedding)) :
  CLAP_new env = inr m ->
  os_listdir env audio_folder = inr names ->
  get_text_embeddings m query_text = inr t ->
  model_answers m t (candidates audio_folder names) = true ->
  exists calls,
    (retrieve_audio env query_text audio_folder top_n log).2 = log ++ calls
    /\ calls = LoadModel :: EmbedText query_text ::
               flat_map (calls_of m t) (candidates audio_folder names)
    /\ List.filter is_embed_text calls = [EmbedText query_text]
    /\ List.filter is_embed_audio calls
       = map EmbedAudio (candidates audio_folder names)
    /\ length (List.filter is_embed_audio calls)
       = length (candidates audio_folder names)
    /\ length (List.filter is_similarity calls)
       = length (candidates audio_folder names)
    /\ Forall (fun f => exists a,
                 get_audio_embeddings m f = inr a
                 /\ calls_of m t f = [EmbedAudio f; Similarity a t])
         (candidates audio_folder names).
Proof.
  intros Hm Hl Ht Ha.
  rewrite (retrieve_audio_run m t env _ _ names Hm Hl Ht _ _ Ha).
  eexists. split; [reflexivity|]. split; [reflexivity|].
  destruct (calls_of_counts m t _ Ha) as (H1 & H2 & H3).
  cbn [List.filter is_embed_text is_embed_audio is_similarity].
  rewrite H1, H2, H3, length_map. repeat split.
  apply model_answers_each, Ha.
Qed.

Lemma retrieve_model_calls_witness :
  exists calls,
    (retrieve_audio stub_env "a dog barking" "sounds" 1 []).2 = [] ++ calls
    /\ calls = LoadModel :: EmbedText "a dog barking" ::
               flat_map (calls_of stub_model (10 # 1))
                 (candidates "sounds"
                    ["dog.wav"; "notes.txt"; "car.wav"; "rain.wav";
                     "wolf.wav"])
    /\ List.filter is_embed_text calls = [EmbedText "a dog barking"]
    /\ List.filter is_embed_audio calls
       = map EmbedAudio
           (candidates "sounds"
              ["dog.wav"; "notes.txt"; "car.wav"; "rain.wav"; "wolf.wav"])
    /\ length (List.filter is_embed_audio calls)
       = length (candidates "sounds"
                   ["dog.wav"; "notes.txt"; "car.wav"; "rain.wav"; "wolf.wav"])
    /\ length (List.filter is_similarity calls)
       = length (candidates "sounds"
                   ["dog.wav"; "notes.txt"; "car.wav"; "rain.wav"; "wolf.wav"])
    /\ Forall (fun f => exists a,
                 get_audio_embeddings stub_model f = inr a
                 /\ calls_of stub_model (10 # 1) f
                    = [EmbedAudio f; Similarity a (10 # 1)])
         (candidates "sounds"
            ["dog.wav"; "notes.txt"; "car.wav"; "rain.wav"; "wolf.wav"]).
Proof.
  apply (retrieve_model_calls stub_env stub_model (10 # 1) "a dog barking"
           "sounds"
           ["dog.wav"; "notes.txt"; "car.wav"; "rain.wav"; "wolf.wav"] 1 []);
    reflexivity.
Defined.

Lemma loads_In fs paths segs p :
  loads fs paths segs -> In p paths -> load_error fs p = None.
Proof.
  induction 1 as [|q a paths segs Hq H IH]; intros Hin; [destruct Hin|].
  destruct Hin as [<- | Hin]; [|auto].
  unfold load_error. rewrite Hq. reflexivity.
Qed.

(** C8: one failing input fails the whole batch.  If a file of [mix] does not
    load, [mix] raises and the file system is as before; if the model fails
    on a candidate, [retrieve_audio] raises and returns no ranking.  In both
    the first failing input decides: [mix] raises its error (through the
    [except] clauses), and the retriever's log ends with the calls for that
    candidate, none being made for the candidates after it. *)
Theorem batch_fails_whole {embedding : Type}
    (fs : FS) (paths : list string) (output_path : string) (volume : float)
    (p : string) (e_load : exn)
    (env : Env embedding) (m : CLAP embedding) (t : embedding)
    (query_text audio_folder : string) (names : list string) (top_n : Z)
    (log : list (call embedding)) (f : string) (e_model : exn) :
  In p paths -> load_error fs p = Some e_load ->
  CLAP_new env = inr m ->
  os_listdir env audio_folder = inr names ->
  get_text_embeddings m query_text = inr t ->
  In f (candidates audio_folder names) ->
  score_file m t f = inl e_model ->
  (exists good segs p' rest e',
     paths = good ++ p' :: rest /\ loads fs good segs
     /\ load_error fs p' = Some e'
     /\ mix paths output_path volume fs = (inl (reraised e'), fs))
  /\ (exists good f' rest e,
     candidates audio_folder names = good ++ f' :: rest
     /\ model_answers m t good = true
     /\ score_file m t f' = inl e
     /\ retrieve_audio env query_text audio_folder top_n log
        = (inl e, log ++ LoadModel :: EmbedText query_text ::
                    flat_map (calls_of m t) good ++ calls_of m t f')).
Proof.
  intros Hp He Hm Hl Ht Hf Hfe. split.
  - destruct (loads_or_first_error fs paths)
      as [[segs H] | (good & segs & p' & rest & e' & -> & H & He')].
    + rewrite (loads_In _ _ _ _ H Hp) in He. discriminate.
    + exists good, segs, p', rest, e'. repeat split; try assumption.
      apply (mix_first_error _ _ _ _ _ _ _ _ H He').
  - destruct (first_failing m t _ _ _ Hf Hfe)
      as (good & f' & rest & e & Hc & H & He').
    exists good, f', rest, e. repeat split; try assumption.
    apply (retrieve_audio_first_error m t env _ _ names Hm Hl Ht
             _ _ _ _ _ _ Hc H He').
Qed.

Lemma batch_fails_whole_witness :
  (exists good segs p' rest e',
     ["a.wav"; "missing.wav"; "b.wav"] = good ++ p' :: rest
     /\ loads fs0 good segs
     /\ load_error fs0 p' = Some e'
     /\ mix ["a.wav"; "missing.wav"; "b.wav"] "o.wav" 1%float fs0
        = (inl (reraised e'), fs0))
  /\ (exists good f' rest e,
     candidates "broken" ["dog.wav"; "noise.wav"; "car.wav"]
     = good ++ f' :: rest
     /\ model_answers stub_model (10 # 1) good = true
     /\ score_file stub_model (10 # 1) f' = inl e
     /\ retrieve_audio stub_env "a dog barking" "broken" 5 []
        = (inl e, [] ++ LoadModel :: EmbedText "a dog barking" ::
                    flat_map (calls_of stub_model (10 # 1)) good
                    ++ calls_of stub_model (10 # 1) f')).
Proof.
  apply (batch_fails_whole fs0 ["a.wav"; "missing.wav"; "b.wav"] "o.wav"
           1%float "missing.wav" FileNotFoundError
           stub_env stub_model (10 # 1) "a dog barking" "broken"
           ["dog.wav"; "noise.wav"; "car.wav"] 5 []
           "broken/noise.wav" ModelError);
    try reflexivity.
  - right. left. reflexivity.
  - right. left. reflexivity.
Defined.

Example batch_fails_ex :
  mix ["a.wav"; "missing.wav"; "b.wav"] "o.wav" 1%float fs0
  = (inl FileNotFoundError, fs0)
  /\ mix ["a.wav"; "bad.wav"; "missing.wav"] "o.wav" 1%float fs0
     = (inl (Exception_ CouldntDecodeError), fs0)
  /\ retrieve_audio stub_env "a dog barking" "broken" 5 []
     = (inl ModelError,
        [LoadModel; EmbedText "a dog barking"; EmbedAudio "broken/dog.wav";
         Similarity (9 # 1) (10 # 1); EmbedAudio "broken/noise.wav"])
  /\ (retrieve_audio stub_env "a dog barking" "empty" 5 []).1 = inr [].
Proof. vm_compute. repeat split. Qed.

(** ** What the wrappers write *)

Lemma read_only_from_file path : read_only (from_file path).
Proof. intros fs. apply from_file_state. Qed.

Lemma read_only_ret {A} (a : A) : read_only (ret a).
Proof. intros fs. reflexivity. Qed.

Lemma read_only_raise {A} e : read_only (@raise FS A e).
Proof. intros fs. reflexivity. Qed.

Lemma read_only_lift {A} (r : exn + A) : read_only (lift r).
Proof. intros fs. reflexivity. Qed.

Lemma read_only_bind {A B} (c : M FS A) (k : A -> M FS B) :
  read_only c -> (forall a, read_only (k a)) -> read_only (bind c k).
Proof.
  intros Hc Hk fs. unfold bind. specialize (Hc fs).
  destruct (c fs) as [[e|a] fs']; cbn in *; subst; [reflexivity|].
  apply Hk.
Qed.


Lemma read_only_comprehension {A B} (f : A -> M FS B) xs :
  (forall x, read_only (f x)) -> read_only (comprehension f xs).
Proof.
  intros Hf. induction xs as [|x xs IH]; cbn [comprehension].
  - apply read_only_ret.
  - apply read_only_bind; [apply Hf|]. intros y.
    apply read_only_bind; [apply IH|]. intros ys. apply read_only_ret.
Qed.

Lemma exports_last_export a path :
  exports_last unguarded path (export a path).
Proof. intros fs. right. exists a. reflexivity. Qed.

Lemma exports_last_raise path e : exports_last unguarded path (raise e).
Proof. intros fs. left. exists e. reflexivity. Qed.

Lemma exports_last_export_obj o path :
  exports_last unguarded path (export_obj o path).
Proof.
  destruct o; [apply exports_last_raise | apply exports_last_export].
Qed.

(** Reading first keeps the export last. *)
Lemma exports_last_bind {A} path (c : M FS A) (k : A -> M FS unit) :
  read_only c -> (forall a, exports_last unguarded path (k a)) ->
  exports_last unguarded path (bind c k).
Proof.
  intros Hc Hk fs. unfold bind. specialize (Hc fs).
  destruct (c fs) as [[e|a] fs']; cbn in *; subst.
  - left. eauto.
  - apply Hk.
Qed.

(** So does wrapping the body in the [except] clauses. *)
Lemma exports_last_guarded path (c : M FS unit) :
  exports_last unguarded path c ->
  exports_last guarded path (try_except c reraise).
Proof.
  intros Hc fs. unfold try_except.
  destruct (Hc fs) as [[e He] | [a Ha]].
  - rewrite He. left. exists (reraised e). reflexivity.
  - unfold unguarded in Ha. rewrite Ha. right. exists a. reflexivity.
Qed.

(** Every saving wrapper of audio.py makes one write, the export to its
    output path, and makes it last.  On every input it either raises before
    the export, with the file system exactly as before, or all it does to the
    file system is that one export: as it is for [trim], [concat] and [fade],
    inside the two [except] clauses for [mix], [mix_two] and
    [convert_mp3_to_wav]. *)
Theorem wrappers_export_last
    (fade_in fade_out : AudioSegment.t -> Z -> exn + AudioSegment.t)
    (audio_path path2 output_path : string)
    (audio_paths : list string) (trim_length end_time : option Z)
    (start_time fade_in_duration fade_out_duration : Z) (volume : float) :
  exports_last unguarded output_path
    (trim audio_path output_path trim_length start_time end_time)
  /\ exports_last unguarded output_path (concat audio_paths output_path)
  /\ exports_last unguarded output_path
       (fade fade_in fade_out audio_path output_path fade_in_duration
          fade_out_duration)
  /\ exports_last guarded output_path (mix audio_paths output_path volume)
  /\ exports_last guarded output_path
       (mix_two audio_path path2 output_path volume)
  /\ exports_last guarded output_path
       (convert_mp3_to_wav audio_path output_path).
Proof.
  split; [|split; [|split; [|split; [|split]]]].
  - unfold trim. apply exports_last_bind; [apply read_only_from_file|].
    intros a. apply exports_last_bind; [apply read_only_lift|].
    intros b. apply exports_last_export.
  - unfold concat. apply exports_last_bind.
    { apply read_only_comprehension, read_only_from_file. }
    intros segs. apply exports_last_bind; [apply read_only_lift|].
    intros o. apply exports_last_export_obj.
  - unfold fade. apply exports_last_bind; [apply read_only_from_file|].
    intros a. apply exports_last_bind.
    { destruct (fade_in_duration >? 0);
        [apply read_only_lift | apply read_only_ret]. }
    intros b. apply exports_last_bind.
    { destruct (fade_out_duration >? 0);
        [apply read_only_lift | apply read_only_ret]. }
    intros c. apply exports_last_export.
  - unfold mix. apply exports_last_guarded, exports_last_bind.
    { apply read_only_comprehension, read_only_from_file. }
    intros segs. apply exports_last_bind.
    { destruct (volume_changed volume); [|apply read_only_ret].
      apply read_only_comprehension. intros x. apply read_only_raise. }
    intros segs'. apply exports_last_bind; [apply read_only_lift|].
    intros o. apply exports_last_export_obj.
  - unfold mix_two. apply exports_last_guarded, exports_last_bind;
      [apply read_only_from_file|].
    intros a1. apply exports_last_bind; [apply read_only_from_file|].
    intros a2. apply exports_last_bind.
    { destruct (volume_changed volume); [|apply read_only_ret].
      apply read_only_bind; [apply read_only_raise|]. intros x.
      apply read_only_bind; [apply read_only_raise|]. intros y.
      apply read_only_ret. }
    intros [b1 b2]. apply exports_last_export.
  - unfold convert_mp3_to_wav. apply exports_last_guarded, exports_last_bind;
      [apply read_only_from_file|].
    intros a. apply exports_last_export.
Qed.

(** ** More on the audio wrappers *)

Lemma mjoin_length (segs : list AudioSegment.t) :
  AudioSegment.len (mjoin segs)
  = fold_right Z.add 0 (map AudioSegment.len segs).
Proof.
  induction segs as [|a segs IH].
  - reflexivity.
  - change (mjoin (a :: segs)) with (a ++ mjoin segs).
    cbn [map fold_right]. rewrite <- IH.
    unfold AudioSegment.len. rewrite length_app. lia.
Qed.

(** [concat] of any non-empty list of files that load writes their samples
    joined in the order given; the duration is the sum of the durations. *)
Theorem concat_all (fs : FS) (audio_paths : list string)
    (segs : list AudioSegment.t) (output_path : string) :
  loads fs audio_paths segs -> audio_paths <> [] ->
  concat audio_paths output_path fs
  = (inr tt, <[output_path := Wav (mjoin segs)]> fs)
  /\ AudioSegment.len (mjoin segs)
     = fold_right Z.add 0 (map AudioSegment.len segs).
Proof.
  intros H Hne. split; [apply concat_loads; assumption | apply mjoin_length].
Qed.

Lemma concat_all_witness :
  concat ["a.wav"; "b.wav"; "a.wav"] "o.wav" fs0
  = (inr tt,
     <["o.wav" := Wav (mjoin [[1; 2; 3]; [10; 20]; [1; 2; 3]])]> fs0)
  /\ AudioSegment.len (mjoin [[1; 2; 3]; [10; 20]; [1; 2; 3]])
     = fold_right Z.add 0
         (map AudioSegment.len [[1; 2; 3]; [10; 20]; [1; 2; 3]]).
Proof.
  apply (concat_all fs0 ["a.wav"; "b.wav"; "a.wav"]
           [[1; 2; 3]; [10; 20]; [1; 2; 3]] "o.wav").
  - repeat constructor.
  - discriminate.
Defined.

(** Given no file at all, [sum] returns the integer 0 and the export fails:
    [concat] lets the [AttributeError] through, [mix] wraps it in the builtin
    [Exception]; neither writes anything. *)
Theorem empty_list_raises (fs : FS) (output_path : string) (volume : float) :
  concat [] output_path fs = (inl (AttributeError "int" "export"), fs)
  /\ mix [] output_path volume fs
     = (inl (Exception_ (AttributeError "int" "export")), fs).
Proof.
  split; [reflexivity|].
  unfold mix, try_except, bind. cbn [comprehension]. unfold ret at 1.
  destruct (volume_changed volume); reflexivity.
Qed.

(** [concat] and [trim] have no [except] clause: the error of the first file
    that does not load comes out as it is (for [mix] it is wrapped unless it
    is the not-found error), and nothing is written. *)
Theorem unguarded_wrappers_raise_load_error (fs : FS)
    (good : list string) (segs : list AudioSegment.t) (p : string)
    (rest : list string) (e : exn) (output_path : string)
    (trim_length end_time : option Z) (start_time : Z) (volume : float) :
  loads fs good segs -> load_error fs p = Some e ->
  concat (good ++ p :: rest) output_path fs = (inl e, fs)
  /\ trim p output_path trim_length start_time end_time fs = (inl e, fs)
  /\ mix (good ++ p :: rest) output_path volume fs = (inl (reraised e), fs).
Proof.
  intros H He. split; [|split].
  - unfold concat, bind.
    rewrite (comprehension_first_error _ _ _ _ _ _ H He). reflexivity.
  - unfold trim, bind. rewrite (from_file_error _ _ _ He). reflexivity.
  - apply (mix_first_error _ _ _ _ _ _ _ _ H He).
Qed.

Lemma unguarded_wrappers_raise_load_error_witness :
  concat (["a.wav"] ++ "bad.wav" :: ["b.wav"]) "o.wav" fs0
  = (inl CouldntDecodeError, fs0)
  /\ trim "bad.wav" "o.wav" None 0 None fs0 = (inl CouldntDecodeError, fs0)
  /\ mix (["a.wav"] ++ "bad.wav" :: ["b.wav"]) "o.wav" 1%float fs0
     = (inl (reraised CouldntDecodeError), fs0).
Proof.
  apply (unguarded_wrappers_raise_load_error fs0 ["a.wav"] [[1; 2; 3]]
           "bad.wav" ["b.wav"] CouldntDecodeError "o.wav" None None 0
           1%float).
  - repeat constructor.
  - reflexivity.
Defined.

(** [mix_two] is [mix] on the two-element list, on every input: the same
    outcome, the same exception and the same file system afterwards. *)
Theorem mix_two_is_mix (fs : FS) (audio_path1 audio_path2 output_path : string)
    (volume : float) :
  mix_two audio_path1 audio_path2 output_path volume fs
  = mix [audio_path1; audio_path2] output_path volume fs.
Proof.
  unfold mix_two, mix, try_except, bind. cbn [comprehension].
  unfold bind, from_file.
  destruct (fs !! audio_path1) as [[a1|]|]; try reflexivity.
  destruct (fs !! audio_path2) as [[a2|]|]; try reflexivity.
  unfold ret at 1 2. destruct (volume_changed volume); [reflexivity|].
  unfold ret, lift. rewrite py_sum_cons. cbn. rewrite app_nil_r.
  reflexivity.
Qed.

(** *** [trim] *)

(** Within the clip, [seg[start:stop]] is the [stop - start] samples after
    the first [start]. *)
Lemma getitem_range a start stop :
  0 <= start <= stop -> stop <= AudioSegment.len a ->
  AudioSegment.getitem a start stop
  = inr (take (Z.to_nat (stop - start)) (drop (Z.to_nat start) a)).
Proof.
  intros Hs He.
  unfold AudioSegment.getitem. cbv zeta.
  rewrite (Z.min_l start), (Z.min_l stop), !parse_position_nonneg by lia.
  rewrite py_slice_in_range by (unfold AudioSegment.len in *; lia).
  set (data := take _ _).
  assert (Hd : AudioSegment.len data = stop - start).
  { unfold data, AudioSegment.len in *.
    rewrite length_take, length_drop. lia. }
  rewrite Hd, Z.sub_diag. reflexivity.
Qed.

Lemma range_length (a : AudioSegment.t) start stop :
  0 <= start <= stop -> stop <= AudioSegment.len a ->
  AudioSegment.len (take (Z.to_nat (stop - start)) (drop (Z.to_nat start) a))
  = stop - start.
Proof.
  intros Hs He. unfold AudioSegment.len in *.
  rewrite length_take, length_drop. lia.
Qed.

Lemma trim_run fs p out tl s e a stop :
  fs !! p = Some (Wav a) ->
  Z.min (match tl with
         | Some l => s + l
         | None => match e with Some e' => e' | None => AudioSegment.len a end
         end) (AudioSegment.len a) = stop ->
  0 <= s <= stop ->
  trim p out tl s e fs
  = (inr tt,
     <[out := Wav (take (Z.to_nat (stop - s)) (drop (Z.to_nat s) a))]> fs).
Proof.
  intros Ha Hstop Hs. unfold trim, bind. rewrite (from_file_loads _ _ _ Ha).
  assert (Hle : stop <= AudioSegment.len a) by lia.
  destruct tl as [l|]; [|destruct e as [e'|]]; cbv zeta;
    rewrite Hstop; unfold lift; rewrite (getitem_range _ _ _ Hs Hle);
    reflexivity.
Qed.

(** [trim] from a start inside the clip: the output is the samples from
    [start_time] up to the end asked for, cut at the end of the clip; its
    duration is [min(end, D) - start_time].  The end is [start_time +
    trim_length] when a length is given (whatever [end_time] says), else
    [end_time]. *)
Theorem trim_range (fs : FS) (audio_path output_path : string)
    (a : AudioSegment.t) (start_time length_or_end : Z)
    (ignored : option Z) :
  fs !! audio_path = Some (Wav a) ->
  0 <= start_time <= AudioSegment.len a ->
  0 <= length_or_end ->
  (let stop := Z.min (start_time + length_or_end) (AudioSegment.len a) in
   let out := take (Z.to_nat (stop - start_time))
                (drop (Z.to_nat start_time) a) in
   trim audio_path output_path (Some length_or_end) start_time ignored fs
   = (inr tt, <[output_path := Wav out]> fs)
   /\ AudioSegment.len out = stop - start_time)
  /\ (start_time <= length_or_end ->
      let stop := Z.min length_or_end (AudioSegment.len a) in
      let out := take (Z.to_nat (stop - start_time))
                   (drop (Z.to_nat start_time) a) in
      trim audio_path output_path None start_time (Some length_or_end) fs
      = (inr tt, <[output_path := Wav out]> fs)
      /\ AudioSegment.len out = stop - start_time).
Proof.
  intros Ha Hs Hl. split; [|intros Hse]; cbv zeta; split.
  - apply trim_run; [assumption | reflexivity | lia].
  - apply range_length; lia.
  - apply trim_run; [assumption | reflexivity | lia].
  - apply range_length; lia.
Qed.

Lemma trim_range_witness :
  (let stop := Z.min (1 + 5) (AudioSegment.len [1; 2; 3]) in
   let out := take (Z.to_nat (stop - 1)) (drop (Z.to_nat 1) [1; 2; 3]) in
   trim "a.wav" "o.wav" (Some 5) 1 (Some 2) fs0
   = (inr tt, <["o.wav" := Wav out]> fs0)
   /\ AudioSegment.len out = stop - 1)
  /\ (1 <= 5 ->
      let stop := Z.min 5 (AudioSegment.len [1; 2; 3]) in
      let out := take (Z.to_nat (stop - 1)) (drop (Z.to_nat 1) [1; 2; 3]) in
      trim "a.wav" "o.wav" None 1 (Some 5) fs0
      = (inr tt, <["o.wav" := Wav out]> fs0)
      /\ AudioSegment.len out = stop - 1).
Proof.
  apply (trim_range fs0 "a.wav" "o.wav" [1; 2; 3] 1 5 (Some 2));
    [reflexivity | vm_compute; split; discriminate | discriminate].
Defined.

(** Trimming a trimmed file: cutting [l2] from [s2] out of the piece [l1]
    from [s1] succeeds and gives a clip of duration [l2], the duration that
    cutting [l2] from [s1 + s2] of the original gives, as long as each cut
    lies within what it cuts. *)
Theorem trim_trim_duration (fs : FS) (p q r : string) (a : AudioSegment.t)
    (s1 l1 s2 l2 : Z) :
  fs !! p = Some (Wav a) ->
  0 <= s1 -> 0 <= l1 -> s1 + l1 <= AudioSegment.len a ->
  0 <= s2 -> 0 <= l2 -> s2 + l2 <= l1 ->
  let fs1 := (trim p q (Some l1) s1 None fs).2 in
  exists twice once,
    trim q r (Some l2) s2 None fs1 = (inr tt, <[r := Wav twice]> fs1)
    /\ trim p r (Some l2) (s1 + s2) None fs = (inr tt, <[r := Wav once]> fs)
    /\ AudioSegment.len twice = l2
    /\ AudioSegment.len once = l2.
Proof.
  intros Ha Hs1 Hl1 H1 Hs2 Hl2 H2. cbv zeta.
  rewrite (trim_run fs p q (Some l1) s1 None a (s1 + l1) Ha) by lia.
  cbn [snd]. replace (s1 + l1 - s1) with l1 by lia.
  set (piece := take (Z.to_nat l1) (drop (Z.to_nat s1) a)).
  assert (Hp : AudioSegment.len piece = l1).
  { unfold piece, AudioSegment.len in *. rewrite length_take, length_drop.
    lia. }
  rewrite (trim_run _ q r (Some l2) s2 None piece (s2 + l2)
             (lookup_insert_eq _ _ _)) by lia.
  rewrite (trim_run fs p r (Some l2) (s1 + s2) None a (s1 + s2 + l2) Ha)
    by lia.
  eexists _, _. split; [reflexivity|]. split; [reflexivity|]. split.
  - rewrite range_length by lia. lia.
  - rewrite range_length by lia. lia.
Qed.

Lemma trim_trim_duration_witness :
  let fs1 := (trim "a.wav" "q.wav" (Some 2) 1 None fs0).2 in
  exists twice once,
    trim "q.wav" "r.wav" (Some 1) 1 None fs1
    = (inr tt, <["r.wav" := Wav twice]> fs1)
    /\ trim "a.wav" "r.wav" (Some 1) (1 + 1) None fs0
       = (inr tt, <["r.wav" := Wav once]> fs0)
    /\ AudioSegment.len twice = 1
    /\ AudioSegment.len once = 1.
Proof.
  apply (trim_trim_duration fs0 "a.wav" "q.wav" "r.wav" [1; 2; 3] 1 2 1 1);
    try reflexivity; discriminate.
Defined.

(** *** [convert_mp3_to_wav], [fade], [metadata] and [rms] *)

(** A conversion writes what it decoded: loading the output afterwards gives
    the segment that loading the input gave, and converting the output again
    changes nothing. *)
Theorem convert_round_trip (fs : FS) (mp3_path wav_output_path : string)
    (a : AudioSegment.t) :
  fs !! mp3_path = Some (Wav a) ->
  let fs1 := (convert_mp3_to_wav mp3_path wav_output_path fs).2 in
  convert_mp3_to_wav mp3_path wav_output_path fs
  = (inr tt, <[wav_output_path := Wav a]> fs)
  /\ from_file wav_output_path fs1 = (inr a, fs1)
  /\ convert_mp3_to_wav wav_output_path wav_output_path fs1 = (inr tt, fs1).
Proof.
  intros Ha. cbv zeta.
  assert (Hrun : convert_mp3_to_wav mp3_path wav_output_path fs
                 = (inr tt, <[wav_output_path := Wav a]> fs)).
  { unfold convert_mp3_to_wav, try_except, bind.
    rewrite (from_file_loads _ _ _ Ha). reflexivity. }
  rewrite Hrun. cbn [snd]. split; [reflexivity|].
  assert (Hout : <[wav_output_path := Wav a]> fs !! wav_output_path
                 = Some (Wav a)) by apply lookup_insert_eq.
  split.
  - apply from_file_loads, Hout.
  - unfold convert_mp3_to_wav, try_except, bind.
    rewrite (from_file_loads _ _ _ Hout). unfold export.
    rewrite insert_insert_eq. reflexivity.
Qed.

Lemma convert_round_trip_witness :
  let fs1 := (convert_mp3_to_wav "a.wav" "o.wav" fs0).2 in
  convert_mp3_to_wav "a.wav" "o.wav" fs0
  = (inr tt, <["o.wav" := Wav [1; 2; 3]]> fs0)
  /\ from_file "o.wav" fs1 = (inr [1; 2; 3], fs1)
  /\ convert_mp3_to_wav "o.wav" "o.wav" fs1 = (inr tt, fs1).
Proof.
  apply (convert_round_trip fs0 "a.wav" "o.wav" [1; 2; 3]).
  reflexivity.
Defined.


(** With fade durations that are not positive (the defaults are 0), [fade]
    calls neither fade of the library and writes the clip as it loaded it.
    It has no [except] clause, so a loading error comes out as it is. *)
Theorem fade_without_durations
    (fade_in fade_out : AudioSegment.t -> Z -> exn + AudioSegment.t)
    (fs : FS) (audio_path output_path : string)
    (fade_in_duration fade_out_duration : Z) :
  fade_in_duration <= 0 -> fade_out_duration <= 0 ->
  (forall a, fs !! audio_path = Some (Wav a) ->
     fade fade_in fade_out audio_path output_path fade_in_duration
       fade_out_duration fs
     = (inr tt, <[output_path := Wav a]> fs))
  /\ (forall e, load_error fs audio_path = Some e ->
     fade fade_in fade_out audio_path output_path fade_in_duration
       fade_out_duration fs
     = (inl e, fs)).
Proof.
  intros H1 H2.
  assert (E1 : (fade_in_duration >? 0) = false) by lia.
  assert (E2 : (fade_out_duration >? 0) = false) by lia.
  split.
  - intros a Ha. unfold fade, bind. rewrite (from_file_loads _ _ _ Ha).
    rewrite E1, E2. reflexivity.
  - intros e He. unfold fade, bind. rewrite (from_file_error _ _ _ He).
    reflexivity.
Qed.

Lemma fade_without_durations_witness :
  (forall a, fs0 !! "a.wav" = Some (Wav a) ->
     fade stub_fade_in stub_fade_out "a.wav" "o.wav" 0 (-3) fs0
     = (inr tt, <["o.wav" := Wav a]> fs0))
  /\ (forall e, load_error fs0 "a.wav" = Some e ->
     fade stub_fade_in stub_fade_out "a.wav" "o.wav" 0 (-3) fs0
     = (inl e, fs0)).
Proof.
  apply (fade_without_durations stub_fade_in stub_fade_out fs0 "a.wav"
           "o.wav" 0 (-3)); discriminate.
Defined.

(** ** More on the retriever *)

(** What happens before the loop.  The model is loaded first; if that fails,
    or the folder cannot be listed, or the query cannot be embedded, the call
    raises that error and no audio file is ever passed to the model, however
    many candidates there are. *)
Theorem retrieve_fails_before_loop {embedding : Type} (env : Env embedding)
    (query_text audio_folder : string) (top_n : Z)
    (log : list (call embedding)) :
  (forall e, CLAP_new env = inl e ->
     retrieve_audio env query_text audio_folder top_n log
     = (inl e, log ++ [LoadModel]))
  /\ (forall m e, CLAP_new env = inr m ->
     os_listdir env audio_folder = inl e ->
     retrieve_audio env query_text audio_folder top_n log
     = (inl e, log ++ [LoadModel]))
  /\ (forall m names e, CLAP_new env = inr m ->
     os_listdir env audio_folder = inr names ->
     get_text_embeddings m query_text = inl e ->
     retrieve_audio env query_text audio_folder top_n log
     = (inl e, log ++ [LoadModel; EmbedText query_text])).
Proof.
  split; [|split].
  - intros e H. unfold retrieve_audio, bind, invoke. rewrite H. reflexivity.
  - intros m e Hm H. unfold retrieve_audio, bind, invoke, lift.
    rewrite Hm, H. reflexivity.
  - intros m names e Hm Hl H. unfold retrieve_audio, bind, invoke, lift.
    rewrite Hm, Hl, H, <- app_assoc. reflexivity.
Qed.

(** [top_n] is used as a slice bound, so 0 and negative numbers are not
    rejected: 0 returns nothing, and a negative [top_n] returns the ranking
    without its last [-top_n] files. *)
Theorem retrieve_nonpositive_top_n {embedding : Type} (env : Env embedding)
    (m : CLAP embedding) (t : embedding) (query_text audio_folder : string)
    (names : list string) (top_n : Z) (log : list (call embedding)) :
  CLAP_new env = inr m ->
  os_listdir env audio_folder = inr names ->
  get_text_embeddings m query_text = inr t ->
  model_answers m t (candidates audio_folder names) = true ->
  top_n <= 0 ->
  let N := Z.of_nat (length (candidates audio_folder names)) in
  exists result full,
    (retrieve_audio env query_text audio_folder top_n log).1 = inr result
    /\ (retrieve_audio env query_text audio_folder N log).1 = inr full
    /\ (top_n = 0 -> result = [])
    /\ (top_n < 0 ->
        result = take (Z.to_nat (N + top_n)) full
        /\ Z.of_nat (length result) = Z.max 0 (N + top_n)).
Proof.
  intros Hm Hl Ht Ha Hn. cbv zeta.
  rewrite !(retrieve_audio_run m t env _ _ names Hm Hl Ht _ _ Ha).
  set (cands := candidates audio_folder names) in *.
  set (r := ranking m t cands).
  assert (Hr : length r = length cands) by apply ranking_length.
  assert (Hfull : py_slice_to r (Z.of_nat (length cands)) = r).
  { rewrite py_slice_to_nonneg by lia. apply firstn_all2. lia. }
  exists (py_slice_to r top_n), r. cbn [fst].
  split; [reflexivity|]. split; [rewrite Hfull; reflexivity|]. split.
  - intros ->. rewrite py_slice_to_nonneg by lia. reflexivity.
  - intros Hlt.
    assert (Hres : py_slice_to r top_n
                   = take (Z.to_nat (Z.of_nat (length cands) + top_n)) r).
    { unfold py_slice_to, py_slice, py_index. cbv zeta. rewrite Hr.
      replace (0 <? 0) with false by reflexivity.
      replace (top_n <? 0) with true by (symmetry; apply Z.ltb_lt; lia).
      rewrite (Z.min_l 0), Z.sub_0_r by lia. cbn [Z.to_nat drop].
      f_equal. lia. }
    split; [exact Hres|]. rewrite Hres, length_take, Hr. lia.
Qed.

Lemma retrieve_nonpositive_top_n_witness :
  let N := Z.of_nat (length (candidates "sounds"
             ["dog.wav"; "notes.txt"; "car.wav"; "rain.wav"; "wolf.wav"])) in
  exists result full,
    (retrieve_audio stub_env "a dog barking" "sounds" (-1) []).1 = inr result
    /\ (retrieve_audio stub_env "a dog barking" "sounds" N []).1 = inr full
    /\ (-1 = 0 -> result = [])
    /\ (-1 < 0 ->
        result = take (Z.to_nat (N + -1)) full
        /\ Z.of_nat (length result) = Z.max 0 (N + -1)).
Proof.
  apply (retrieve_nonpositive_top_n stub_env stub_model (10 # 1)
           "a dog barking" "sounds"
           ["dog.wav"; "notes.txt"; "car.wav"; "rain.wav"; "wolf.wav"]
           (-1) []);
    try reflexivity.
  discriminate.
Defined.

Example retrieve_negative_ex :
  (retrieve_audio stub_env "a dog barking" "sounds" (-1) []).1
  = inr ["sounds/dog.wav"; "sounds/rain.wav"; "sounds/wolf.wav"]
  /\ (retrieve_audio stub_env "a dog barking" "sounds" 0 []).1 = inr [].
Proof. vm_compute. split; reflexivity. Qed.

(** Asking for more only adds to the end: the result for [k] is the first
    [k] entries of the result for any larger [top_n], so the files already
    returned keep their places. *)
Theorem retrieve_prefix {embedding : Type} (env : Env embedding)
    (m : CLAP embedding) (t : embedding) (query_text audio_folder : string)
    (names : list string) (k top_n : Z) (log log' : list (call embedding)) :
  CLAP_new env = inr m ->
  os_listdir env audio_folder = inr names ->
  get_text_embeddings m query_text = inr t ->
  model_answers m t (candidates audio_folder names) = true ->
  0 <= k <= top_n ->
  exists small large,
    (retrieve_audio env query_text audio_folder k log).1 = inr small
    /\ (retrieve_audio env query_text audio_folder top_n log').1 = inr large
    /\ small = take (Z.to_nat k) large.
Proof.
  intros Hm Hl Ht Ha Hk.
  rewrite !(retrieve_audio_run m t env _ _ names Hm Hl Ht _ _ Ha).
  eexists _, _. split; [reflexivity|]. split; [reflexivity|].
  rewrite !py_slice_to_nonneg by lia. rewrite firstn_firstn.
  f_equal. lia.
Qed.

Lemma retrieve_prefix_witness :
  exists small large,
    (retrieve_audio stub_env "a dog barking" "sounds" 1 []).1 = inr small
    /\ (retrieve_audio stub_env "a dog barking" "sounds" 3 []).1 = inr large
    /\ small = take (Z.to_nat 1) large.
Proof.
  apply (retrieve_prefix stub_env stub_model (10 # 1) "a dog barking"
           "sounds"
           ["dog.wav"; "notes.txt"; "car.wav"; "rain.wav"; "wolf.wav"]
           1 3 [] []);
    try reflexivity.
  split; discriminate.
Defined.

Lemma filter_head_split {A} (f : A -> bool) (l : list A) x l' :
  List.filter f l = x :: l' ->
  exists before after,
    l = before ++ x :: after /\ Forall (fun y => f y = false) before.
Proof.
  induction l as [|y l IH]; cbn [List.filter]; [discriminate|].
  destruct (f y) eqn:Ey.
  - intros [= -> <-]. exists [], l. split; [reflexivity | constructor].
  - intros H. destruct (IH H) as (before & after & -> & Hb).
    exists (y :: before), after. split; [reflexivity|].
    constructor; assumption.
Qed.

(** The first file returned is the best match, and among equally good ones
    the one listed first: no candidate scores higher, and every candidate
    listed before it scores strictly lower. *)
Theorem retrieve_best_first {embedding : Type} (env : Env embedding)
    (m : CLAP embedding) (t : embedding) (query_text audio_folder : string)
    (names : list string) (top_n : Z) (log : list (call embedding)) :
  CLAP_new env = inr m ->
  os_listdir env audio_folder = inr names ->
  get_text_embeddings m query_text = inr t ->
  model_answers m t (candidates audio_folder names) = true ->
  0 < top_n ->
  candidates audio_folder names <> [] ->
  exists best others before after,
    (retrieve_audio env query_text audio_folder top_n log).1
    = inr (best :: others)
    /\ candidates audio_folder names = before ++ best :: after
    /\ (forall g, In g (candidates audio_folder names) ->
          (score_of m t g <= score_of m t best)%Q)
    /\ (forall g, In g before -> (score_of m t g < score_of m t best)%Q).
Proof.
  intros Hm Hl Ht Ha Hn Hne.
  rewrite (retrieve_audio_run m t env _ _ names Hm Hl Ht _ _ Ha).
  set (cands := candidates audio_folder names) in *.
  pose proof (ranking_length m t cands) as Hlen.
  pose proof (ranking_sorted m t cands) as Hsorted.
  pose proof (ranking_perm m t cands) as Hperm.
  pose proof (ranking_stable m t) as Hstable.
  destruct (ranking m t cands) as [|best rs] eqn:Hr.
  { destruct cands; [congruence | discriminate]. }
  specialize (Hstable (score_of m t best) cands). rewrite Hr in Hstable.
  unfold with_key in Hstable. cbn [List.filter] in Hstable.
  rewrite Qeq_bool_refl in Hstable. symmetry in Hstable.
  apply filter_head_split in Hstable as (before & after & Hc & Hb).
  assert (Hmax : forall g, In g cands ->
                   (score_of m t g <= score_of m t best)%Q).
  { intros g Hg.
    apply (Permutation_in _ (Permutation_sym Hperm)) in Hg.
    destruct Hg as [<- | Hg]; [apply Qle_refl|].
    inversion Hsorted as [|? ? _ Hall]; subst.
    rewrite List.Forall_forall in Hall. apply (Hall g Hg). }
  rewrite py_slice_to_nonneg by lia.
  destruct (Z.to_nat top_n) as [|n] eqn:En; [lia|]. cbn [take fst].
  exists best, (take n rs), before, after.
  split; [reflexivity|]. split; [exact Hc|]. split; [exact Hmax|].
  intros g Hg.
  assert (Hle : (score_of m t g <= score_of m t best)%Q).
  { apply Hmax. rewrite Hc. apply in_or_app. left. assumption. }
  rewrite List.Forall_forall in Hb. specialize (Hb g Hg).
  apply Qle_lteq in Hle as [Hlt | Heq]; [assumption|].
  apply Qeq_bool_iff in Heq. congruence.
Qed.

Lemma retrieve_best_first_witness :
  exists best others before after,
    (retrieve_audio stub_env "a dog barking" "sounds" 2 []).1
    = inr (best :: others)
    /\ candidates "sounds"
         ["dog.wav"; "notes.txt"; "car.wav"; "rain.wav"; "wolf.wav"]
       = before ++ best :: after
    /\ (forall g,
          In g (candidates "sounds"
                  ["dog.wav"; "notes.txt"; "car.wav"; "rain.wav";
                   "wolf.wav"]) ->
          (score_of stub_model (10 # 1) g
           <= score_of stub_model (10 # 1) best)%Q)
    /\ (forall g, In g before ->
          (score_of stub_model (10 # 1) g
           < score_of stub_model (10 # 1) best)%Q).
Proof.
  apply (retrieve_best_first stub_env stub_model (10 # 1) "a dog barking"
           "sounds"
           ["dog.wav"; "notes.txt"; "car.wav"; "rain.wav"; "wolf.wav"] 2 []);
    try reflexivity.
  discriminate.
Defined.

(** Only entries of the folder whose name ends in ".wav" (lower case) are
    candidates: every file returned, and every file passed to the model, is
    the folder joined with such an entry.  Whatever else the folder holds is
    neither embedded nor returned. *)
Theorem retrieve_only_wav {embedding : Type} (env : Env embedding)
    (m : CLAP embedding) (t : embedding) (query_text audio_folder : string)
    (names : list string) (top_n : Z) (log : list (call embedding)) :
  CLAP_new env = inr m ->
  os_listdir env audio_folder = inr names ->
  get_text_embeddings m query_text = inr t ->
  model_answers m t (candidates audio_folder names) = true ->
  let listed_wav (f : string) :=
    exists name, In name names /\ endswith name ".wav" = true
                 /\ f = os_path_join audio_folder name in
  exists result calls,
    retrieve_audio env query_text audio_folder top_n log
    = (inr result, log ++ calls)
    /\ (forall f, In f result -> listed_wav f)
    /\ (forall f, In (EmbedAudio f) calls -> listed_wav f).
Proof.
  intros Hm Hl Ht Ha. cbv zeta.
  rewrite (retrieve_audio_run m t env _ _ names Hm Hl Ht _ _ Ha).
  eexists _, _. split; [reflexivity|].
  assert (Hc : forall f, In f (candidates audio_folder names) ->
            exists name, In name names /\ endswith name ".wav" = true
                         /\ f = os_path_join audio_folder name).
  { intros f Hf. unfold candidates in Hf.
    apply in_map_iff in Hf as (name & <- & Hn).
    apply filter_In in Hn as [Hn He]. eauto. }
  split.
  - intros f Hf. apply Hc. apply py_slice_to_In in Hf.
    exact (Permutation_in _ (ranking_perm m t _) Hf).
  - intros f Hf. apply Hc.
    destruct Hf as [Hf | [Hf | Hf]]; try discriminate.
    apply in_flat_map in Hf as (g & Hg & Hf).
    unfold calls_of in Hf. destruct Hf as [[= ->] | Hf]; [assumption|].
    destruct (get_audio_embeddings m g); [destruct Hf|].
    destruct Hf as [Hf | []]. discriminate.
Qed.

Lemma retrieve_only_wav_witness :
  let listed_wav (f : string) :=
    exists name,
      In name ["dog.wav"; "notes.txt"; "car.wav"; "rain.wav"; "wolf.wav"]
      /\ endswith name ".wav" = true
      /\ f = os_path_join "sounds" name in
  exists result calls,
    retrieve_audio stub_env "a dog barking" "sounds" 5 []
    = (inr result, [] ++ calls)
    /\ (forall f, In f result -> listed_wav f)
    /\ (forall f, In (EmbedAudio f) calls -> listed_wav f).
Proof.
  apply (retrieve_only_wav stub_env stub_model (10 # 1) "a dog barking"
           "sounds"
           ["dog.wav"; "notes.txt"; "car.wav"; "rain.wav"; "wolf.wav"] 5 []);
    reflexivity.
Defined.

Lemma StronglySorted_prefix {A} (R : A -> A -> Prop) (l : list A) :
  StronglySorted R l -> forall n, StronglySorted R (take n l).
Proof.
  induction 1 as [|x l Hl IH Hx]; intros n.
  - destruct n; constructor.
  - destruct n as [|n]; cbn [take]; constructor; [apply IH|].
    rewrite List.Forall_forall in *. intros y Hy. apply Hx.
    rewrite <- (firstn_skipn n l). apply in_or_app. left. assumption.
Qed.

(** Whatever [top_n] is, positive or not, the files come back in descending
    order of score and each of them is a candidate. *)
Theorem retrieve_sorted {embedding : Type} (env : Env embedding)
    (m : CLAP embedding) (t : embedding) (query_text audio_folder : string)
    (names : list string) (top_n : Z) (log : list (call embedding)) :
  CLAP_new env = inr m ->
  os_listdir env audio_folder = inr names ->
  get_text_embeddings m query_text = inr t ->
  model_answers m t (candidates audio_folder names) = true ->
  exists result,
    (retrieve_audio env query_text audio_folder top_n log).1 = inr result
    /\ StronglySorted (descending (score_of m t)) result
    /\ (length result <= length (candidates audio_folder names))%nat.
Proof.
  intros Hm Hl Ht Ha.
  rewrite (retrieve_audio_run m t env _ _ names Hm Hl Ht _ _ Ha).
  eexists. split; [reflexivity|].
  destruct (py_slice_to_prefix
              (ranking m t (candidates audio_folder names)) top_n) as [k ->].
  split.
  - apply StronglySorted_prefix, ranking_sorted.
  - rewrite length_take, ranking_length. lia.
Qed.

Lemma retrieve_sorted_witness :
  exists result,
    (retrieve_audio stub_env "a dog barking" "sounds" (-2) []).1 = inr result
    /\ StronglySorted (descending (score_of stub_model (10 # 1))) result
    /\ (length result
        <= length (candidates "sounds"
             ["dog.wav"; "notes.txt"; "car.wav"; "rain.wav"; "wolf.wav"]))%nat.
Proof.
  apply (retrieve_sorted stub_env stub_model (10 # 1) "a dog barking"
           "sounds"
           ["dog.wav"; "notes.txt"; "car.wav"; "rain.wav"; "wolf.wav"]
           (-2) []);
    reflexivity.
Defined.

(** ** The caption wrapper *)

(** What [audio_caption] makes of the model's answer.  Of a list it returns
    the first caption and drops the rest; an empty list raises [IndexError].
    Of a dict it returns the entry at "caption", and the empty string when
    there is none, without raising. *)
Theorem caption_outcomes (clap_model : Captioner) (audio_file_path : string)
    (resample : bool) (beam_size entry_length : Z) (temperature : float)
    (answer : captions) :
  generate_caption clap_model audio_file_path resample beam_size entry_length
    temperature = inr answer ->
  let caption := audio_caption (inr clap_model) audio_file_path resample
                   beam_size entry_length temperature in
  (forall first rest, answer = CapList (first :: rest) ->
     caption = inr first)
  /\ (answer = CapList [] -> caption = inl IndexError)
  /\ (forall d s, answer = CapDict d -> d !! "caption" = Some s ->
      caption = inr s)
  /\ (forall d, answer = CapDict d -> d !! "caption" = None ->
      caption = inr EmptyString).
Proof.
  intros H. cbv zeta. unfold audio_caption. rewrite H.
  split; [|split; [|split]].
  - intros first rest ->. reflexivity.
  - intros ->. reflexivity.
  - intros d s -> Hs. rewrite Hs. reflexivity.
  - intros d -> Hs. rewrite Hs. reflexivity.
Qed.

Lemma caption_outcomes_witness :
  let caption := audio_caption (inr stub_captioner) "dog.wav" true 5 67
                   0.5%float in
  (forall first rest,
     CapList ["a dog barks"; "an animal makes noise"]
     = CapList (first :: rest) ->
     caption = inr first)
  /\ (CapList ["a dog barks"; "an animal makes noise"] = CapList [] ->
      caption = inl IndexError)
  /\ (forall d s,
      CapList ["a dog barks"; "an animal makes noise"] = CapDict d ->
      d !! "caption" = Some s -> caption = inr s)
  /\ (forall d,
      CapList ["a dog barks"; "an animal makes noise"] = CapDict d ->
      d !! "caption" = None -> caption = inr EmptyString).
Proof.
  apply (caption_outcomes stub_captioner "dog.wav" true 5 67 0.5%float
           (CapList ["a dog barks"; "an animal makes noise"])).
  reflexivity.
Defined.

Example caption_ex :
  audio_caption (inr stub_captioner) "dog.wav" true 5 67 0.5%float
  = inr "a dog barks"
  /\ audio_caption (inr stub_captioner) "silence.wav" true 5 67 0.5%float
     = inl IndexError
  /\ audio_caption (inr stub_captioner) "rain.wav" true 5 67 0.5%float
     = inr "rain falls"
  /\ audio_caption (inr stub_captioner) "car.wav" true 5 67 0.5%float
     = inr EmptyString
  /\ audio_caption (inr stub_captioner) "nothing.wav" true 5 67 0.5%float
     = inl (Raised ModelError)
  /\ audio_caption (inl ModelError) "dog.wav" true 5 67 0.5%float
     = inl (Raised ModelError).
Proof. vm_compute. repeat split. Qed.
